(** * Regularised DDP with interior-point continuation

  A shallow embedding of [noc/differential_dynamic_programming.py]:
  the backward pass, the nonlinear rollout, the feasibility check, the
  Newton loop [ddp] with its globalisation loop, and the barrier
  continuation [interior_point_ddp]; with them the [constraints] of
  [examples/constrained_linear_demo.py].

  Scalars are IEEE binary64 numbers (the demo switches [jax_enable_x64]
  on), so [jnp.inf], NaN and the comparisons behave as in the program.
  Arrays are values of an abstract type [ndarray] with the operations of
  [jax.numpy] / [jax.scipy.linalg] the program calls; the leading (time)
  axis of a stacked array is a Rocq list.  Code that can raise (a
  [vmap]/[scan] over arrays of different lengths, an index into an empty
  array, a reduction without identity over an empty array) returns
  [Raised]; a [lax.while_loop] runs on fuel and returns [OutOfFuel] when
  the fuel is spent. *)

From Stdlib Require Import Floats ZArith List Bool Lia Zpower.
Import ListNotations.

#[local] Set Warnings "-inexact-float".
#[local] Open Scope float_scope.

(** ** Results of code that may raise or loop *)

Inductive result (A : Type) : Type :=
| Ok (a : A)
| Raised
| OutOfFuel.

Arguments Ok {A} a.
Arguments Raised {A}.
Arguments OutOfFuel {A}.

Definition bind {A B : Type} (r : result A) (k : A -> result B) : result B :=
match r with
| Ok a => k a
| Raised => Raised
| OutOfFuel => OutOfFuel
end.

Notation "x <- e ;; k" := (bind e (fun x => k))
(at level 61, e at next level, right associativity).
Notation "' p <- e ;; k" := (bind e (fun p => k))
(at level 61, p pattern, e at next level, right associativity).

Definition of_option {A : Type} (o : option A) : result A :=
match o with
| Some a => Ok a
| None => Raised
end.

(** ** Control operators of [jax.lax] *)

Section Lax.
Context {S X Y : Type}.

(** [lax.while_loop(cond_fun, body_fun, init_val)]. *)
Fixpoint while_loop (fuel : nat) (cond : S -> bool) (body : S -> result S)
    (s : S) : result S :=
  if cond s then
    match fuel with
    | O => OutOfFuel
    | Datatypes.S fuel' => s' <- body s ;; while_loop fuel' cond body s'
    end
  else Ok s.

(** The same loop, also counting the executions of its body. *)
Fixpoint while_steps (fuel : nat) (cond : S -> bool) (body : S -> result S)
    (s : S) : result (S * nat) :=
  if cond s then
    match fuel with
    | O => OutOfFuel
    | Datatypes.S fuel' =>
        s' <- body s ;;
        '(s'', n) <- while_steps fuel' cond body s' ;;
        Ok (s'', Datatypes.S n)
    end
  else Ok (s, O).

(** [lax.scan(f, init, xs)]: the carry goes forward through [xs]. *)
Fixpoint scan (f : S -> X -> S * Y) (c : S) (xs : list X) : S * list Y :=
  match xs with
  | [] => (c, [])
  | x :: rest =>
      let '(c', y) := f c x in
      let '(cN, ys) := scan f c' rest in
      (cN, y :: ys)
  end.

(** [lax.scan(f, init, xs, reverse=True)]: the carry goes from the last
    slice to the first; the outputs stay at the index of their input. *)
Fixpoint scan_reverse (f : S -> X -> S * Y) (c : S) (xs : list X)
    : S * list Y :=
  match xs with
  | [] => (c, [])
  | x :: rest =>
      let '(c', ys) := scan_reverse f c rest in
      let '(c0, y) := f c' x in
      (c0, y :: ys)
  end.
End Lax.

(** [jax.vmap(f)(xs, ys)]: both arguments are mapped over their leading
  axis, which must have one size. *)
Fixpoint vmap2 {A B C : Type} (f : A -> B -> C) (xs : list A) (ys : list B)
  : result (list C) :=
match xs, ys with
| [], [] => Ok []
| x :: xs', y :: ys' => r <- vmap2 f xs' ys' ;; Ok (f x y :: r)
| _, _ => Raised
end.

(** The four stacked inputs of the rollout scan, sliced along the leading
  axis, which must have one size. *)
Fixpoint slices4 {A B C D : Type} (a : list A) (b : list B) (c : list C)
  (d : list D) : result (list (A * B * C * D)) :=
match a, b, c, d with
| [], [], [], [] => Ok []
| x :: a', y :: b', z :: c', w :: d' =>
    r <- slices4 a' b' c' d' ;; Ok ((x, y, z, w) :: r)
| _, _, _, _ => Raised
end.

(** ** Scalar operations of [jax.numpy] on binary64 *)

(** [jnp.maximum] and [jnp.minimum] propagate NaN. *)
Definition maximum (a b : float) : float :=
if is_nan a then a else if is_nan b then b else if a <? b then b else a.

Definition minimum (a b : float) : float :=
if is_nan a then a else if is_nan b then b else if b <? a then b else a.

(** [jnp.clip(a, lo, hi)] is [minimum(hi, maximum(lo, a))]. *)
Definition clip (a lo hi : float) : float := minimum hi (maximum lo a).

(** [x ** 3] with an integer exponent is a product. *)
Definition pow3 (x : float) : float := x * x * x.

(** [jnp.sum] over the flattened entries: a reduction with [+] from [0]. *)
Definition jsum (xs : list float) : float := fold_left add xs 0.

(** [jnp.max] over the flattened entries; it has no identity, so an empty
  array raises. *)
Definition jmax (xs : list float) : result float :=
match xs with
| [] => Raised
| x :: rest => Ok (fold_left maximum rest x)
end.

(** [jnp.all] of a boolean array. *)
Definition jall (bs : list bool) : bool := forallb (fun b => b) bs.

(** [gain_ratio]: the actual reduction [new_cost - cost] over the predicted
    one. *)
Definition gain_ratio_of (new_cost cost pred : float) : float :=
  let actual_reduction := new_cost - cost in
  actual_reduction / pred.

(** The regularisation scalar after one inner iteration: cubic decay on
    success, growth by the multiplier [reg_inc] of the enclosing outer
    iteration otherwise, then the clip. *)
Definition next_rp (success : bool) (rp gain_ratio reg_inc : float) : float :=
  let rp :=
    if success
    then rp * maximum (1 / 3) (1 - pow3 (2 * gain_ratio - 1))
    else rp * reg_inc in
  clip rp 1e-16 1e16.

(** ** The array library *)

(** The operations of [jax.numpy] and [jax.scipy.linalg] the solver calls.
  [elems] lists the entries of an array in row-major order. *)
Record ArrayOps : Type := {
ndarray : Type;
elems : ndarray -> list float;
plus : ndarray -> ndarray -> ndarray;        (* a + b *)
minus : ndarray -> ndarray -> ndarray;       (* a - b *)
neg : ndarray -> ndarray;                    (* -a *)
smul : float -> ndarray -> ndarray;          (* c * a, c a scalar *)
matmul : ndarray -> ndarray -> ndarray;      (* a @ b *)
transpose : ndarray -> ndarray;              (* a.T *)
tensordot : ndarray -> ndarray -> ndarray;   (* jnp.tensordot(a, b, axes=1) *)
eye_like : ndarray -> ndarray;               (* jnp.eye(a.shape[0]) *)
solve : ndarray -> ndarray -> ndarray;       (* jcp.linalg.solve(a, b) *)
eigh : ndarray -> ndarray                    (* eigenvalues of jnp.linalg.eigh(a) *)
}.

Section Solver.
Variable J : ArrayOps.

Abbreviation arr := (ndarray J).
Infix "+@" := (plus J) (at level 50, left associativity).
Infix "-@" := (minus J) (at level 50, left associativity).
Infix "@@" := (matmul J) (at level 40, left associativity).
Infix "*@" := (smul J) (at level 40, left associativity).
Notation "a ^T" := (transpose J a) (at level 1, format "a ^T").

(** The entries of a stacked array. *)
Definition flat (xs : list arr) : list float := flat_map (elems J) xs.

(** [jnp.linalg.norm] without [ord]: the 2-norm of the flattened array. *)
Definition norm (xs : list arr) : float :=
  sqrt (jsum (map (fun e => e * e) (flat xs))).

(** Modelled from the spec: [OCP] of [noc/optimal_control_problem.py], an
    immutable bundle of five pure functions. *)
Record OCP : Type := {
  dynamics : arr -> arr -> arr;
  constraints : arr -> arr -> arr;
  stage_cost : arr -> arr -> float -> float;
  final_cost : arr -> float;
  total_cost : list arr -> list arr -> float -> float
}.

(** Modelled from the spec: [Derivatives] of
    [noc/optimal_control_problem.py], the per-stage partials of cost and
    dynamics.  The program keeps ten stacked arrays whose indices align
    with the stages; here one record holds the ten slices of a stage and
    the bundle is the list of the stages. *)
Record stage_derivatives : Type := {
  cx : arr; cu : arr; cxx : arr; cuu : arr; cxu : arr;
  fx : arr; fu : arr; fxx : arr; fuu : arr; fxu : arr
}.

Definition Derivatives : Type := list stage_derivatives.

(** Automatic differentiation ([jax.grad], [jax.hessian], [jax.jacrev]) at
    the argument positions the program asks for. *)
Record Autodiff : Type := {
  grad : (arr -> float) -> arr -> arr;
  hessian : (arr -> float) -> arr -> arr;
  grad_01 : (arr -> arr -> float -> float) -> arr -> arr -> float -> arr * arr;
  hessian_0 : (arr -> arr -> float -> float) -> arr -> arr -> float -> arr;
  hessian_1 : (arr -> arr -> float -> float) -> arr -> arr -> float -> arr;
  jacrev_0_1 : (arr -> arr -> float -> float) -> arr -> arr -> float -> arr;
  jacrev_01 : (arr -> arr -> arr) -> arr -> arr -> arr * arr;
  jacrev_0_0 : (arr -> arr -> arr) -> arr -> arr -> arr;
  jacrev_1_1 : (arr -> arr -> arr) -> arr -> arr -> arr;
  jacrev_0_1' : (arr -> arr -> arr) -> arr -> arr -> arr
}.

Variable AD : Autodiff.

(** ** [compute_derivatives] *)

Definition compute_derivatives_body (ocp : OCP) (bp : float) (x u : arr)
    : stage_derivatives :=
  let '(cx_k, cu_k) := grad_01 AD (stage_cost ocp) x u bp in
  let cxx_k := hessian_0 AD (stage_cost ocp) x u bp in
  let cuu_k := hessian_1 AD (stage_cost ocp) x u bp in
  let cxu_k := jacrev_0_1 AD (stage_cost ocp) x u bp in
  let '(fx_k, fu_k) := jacrev_01 AD (dynamics ocp) x u in
  let fxx_k := jacrev_0_0 AD (dynamics ocp) x u in
  let fuu_k := jacrev_1_1 AD (dynamics ocp) x u in
  let fxu_k := jacrev_0_1' AD (dynamics ocp) x u in
  {| cx := cx_k; cu := cu_k; cxx := cxx_k; cuu := cuu_k; cxu := cxu_k;
     fx := fx_k; fu := fu_k; fxx := fxx_k; fuu := fuu_k; fxu := fxu_k |}.

Definition compute_derivatives (ocp : OCP) (states controls : list arr)
    (bp : float) : result Derivatives :=
  vmap2 (compute_derivatives_body ocp bp) (removelast states) controls.

(** ** [bwd_pass] *)

(** What one stage of the backward scan emits: [(k, K, dV, pos_def, Qu)]. *)
Record stage_output : Type := {
  out_k : arr; out_K : arr; out_dV : arr; out_pos_def : bool; out_Qu : arr
}.

(** The body of the scan; [reg_param] is already scaled by the gradient
    norm. *)
Definition bwd_body (reg_param : float) (carry : arr * arr)
    (inp : stage_derivatives) : (arr * arr) * stage_output :=
  let '(Vx, Vxx) := carry in
  let Qx := cx inp +@ (fx inp)^T @@ Vx in
  let Qu := cu inp +@ (fu inp)^T @@ Vx in
  let Qxx := cxx inp +@ (fx inp)^T @@ Vxx @@ fx inp +@ tensordot J Vx (fxx inp) in
  let Qxu := cxu inp +@ (fx inp)^T @@ Vxx @@ fu inp +@ tensordot J Vx (fxu inp) in
  let Quu := cuu inp +@ (fu inp)^T @@ Vxx @@ fu inp +@ tensordot J Vx (fuu inp) in
  let Quu := Quu +@ reg_param *@ eye_like J Quu in
  let eig_vals := eigh J Quu in
  let pos_def := forallb (fun e => 0 <? e) (elems J eig_vals) in
  let k := neg J (solve J Quu Qu) in
  let K := neg J (solve J Quu Qxu^T) in
  let dV := (-0.5) *@ Qu @@ solve J Quu Qu in
  let Vx := Qx -@ Qu @@ solve J Quu Qxu^T in
  let Vxx := Qxx -@ Qxu @@ solve J Quu Qxu^T in
  ((Vx, Vxx),
   {| out_k := k; out_K := K; out_dV := dV; out_pos_def := pos_def;
      out_Qu := Qu |}).

(** What [bwd_pass] returns:
    [(ffgain, gain, pred_reduction, feasible_bwd_pass, Hu)]. *)
Record bwd_result : Type := {
  ffgain : list arr;
  gain : list arr;
  pred_reduction : float;
  feasible_bwd_pass : bool;
  Hu : list arr
}.

(** The scan of [bwd_pass]: the scaling of [reg_param], the terminal value
    function and the reverse scan over the stages. *)
Definition bwd_scan (final_cost : arr -> float) (final_state : arr)
    (d : Derivatives) (reg_param : float) : (arr * arr) * list stage_output :=
  let grad_cost_norm := norm (map cu d) in
  let reg_param := reg_param * grad_cost_norm in
  let Vx_final := grad AD final_cost final_state in
  let Vxx_final := hessian AD final_cost final_state in
  scan_reverse (bwd_body reg_param) (Vx_final, Vxx_final) d.

Definition bwd_pass (final_cost : arr -> float) (final_state : arr)
    (d : Derivatives) (reg_param : float) : bwd_result :=
  let '(_, outs) := bwd_scan final_cost final_state d reg_param in
  let cost_diff := map out_dV outs in
  {| ffgain := map out_k outs;
     gain := map out_K outs;
     pred_reduction := jsum (flat cost_diff);
     feasible_bwd_pass := jall (map out_pos_def outs);
     Hu := map out_Qu outs |}.

(** ** [nonlin_rollout] *)

Definition rollout_body (ocp : OCP) (x_hat : arr) (inp : arr * arr * arr * arr)
    : arr * (arr * arr) :=
  let '(K, k, x, u) := inp in
  let u_hat := u +@ k +@ K @@ (x_hat -@ x) in
  let next_x_hat := dynamics ocp x_hat u_hat in
  (next_x_hat, (x_hat, u_hat)).

Definition nonlin_rollout (ocp : OCP) (gain ffgain nominal_states
    nominal_controls : list arr) : result (list arr * list arr) :=
  x0 <- of_option (hd_error nominal_states) ;;
  inps <- slices4 gain ffgain (removelast nominal_states) nominal_controls ;;
  let '(new_final_state, outs) := scan (rollout_body ocp) x0 inps in
  let new_states := map fst outs in
  let new_controls := map snd outs in
  let new_states := new_states ++ [new_final_state] in
  Ok (new_states, new_controls).

(** ** [check_feasibility] *)

Definition check_feasibility (ocp : OCP) (x u : list arr) : result bool :=
  cons <- vmap2 (constraints ocp) (removelast x) u ;;
  Ok (forallb (fun c => c <=? 0) (flat cons)).

(** Modelled from the spec: [rollout] of [noc/utils.py], the open-loop
    state trajectory of a control sequence from an initial state. *)
Definition rollout (dyn : arr -> arr -> arr) (controls : list arr)
    (initial_state : arr) : list arr :=
  let '(final_state, states) :=
    scan (fun x u => (dyn x u, x)) initial_state controls in
  states ++ [final_state].


(** ** [ddp]: the Newton loop and its globalisation loop *)

(** [x[-1]]. *)
Definition last_error {A : Type} (l : list A) : option A :=
  nth_error l (length l - 1).

(** The tuple carried by the inner [lax.while_loop]. *)
Record inner_val : Type := {
  temp_x : list arr;
  temp_u : list arr;
  succesful_minimzation : bool;
  Hu_norm : float;
  rp : float;
  r_inc : float;
  inner_it_counter : Z
}.

(** The tuple carried by the outer [lax.while_loop]. *)
Record val : Type := {
  x_nom : list arr;
  u_nom : list arr;
  iterations : Z;
  reg_param : float;
  reg_inc : float;
  Hamiltonian_norm : float
}.

(** [new_cost]: the cost of the candidate, [jnp.inf] when it violates a
    constraint. *)
Definition new_cost_of (ocp : OCP) (barrier_param : float)
    (cand_x cand_u : list arr) : result float :=
  feasible <- check_feasibility ocp cand_x cand_u ;;
  Ok (if feasible then total_cost ocp cand_x cand_u barrier_param
      else infinity).

(** The backward pass of an inner iteration, about the final state [x[-1]]
    of the nominal trajectory. *)
Definition inner_bwd (ocp : OCP) (x : list arr) (derivatives : Derivatives)
    (rp0 : float) : result bwd_result :=
  x_last <- of_option (last_error x) ;;
  Ok (bwd_pass (final_cost ocp) x_last derivatives rp0).

(** The body of the inner loop.  [x], [u], [cost], [derivatives] and
    [reg_inc] are the variables of the enclosing [while_body] it closes
    over. *)
Definition while_inner_loop (ocp : OCP) (barrier_param : float)
    (x u : list arr) (cost : float) (derivatives : Derivatives)
    (reg_inc : float) (inner : inner_val) : result inner_val :=
  let rp0 := rp inner in
  b <- inner_bwd ocp x derivatives rp0 ;;
  '(cand_x, cand_u) <- nonlin_rollout ocp (gain b) (ffgain b) x u ;;
  Hu_norm' <- jmax (map abs (flat (Hu b))) ;;
  new_cost <- new_cost_of ocp barrier_param cand_x cand_u ;;
  let gain_ratio := gain_ratio_of new_cost cost (pred_reduction b) in
  let success := (0 <? gain_ratio) && feasible_bwd_pass b in
  Ok {| temp_x := cand_x;
        temp_u := cand_u;
        succesful_minimzation := success;
        Hu_norm := Hu_norm';
        rp := next_rp success rp0 gain_ratio reg_inc;
        r_inc := if success then 2 else 2 * r_inc inner;
        inner_it_counter := inner_it_counter inner + 1 |}.

Definition while_inner_cond (inner : inner_val) : bool :=
  let exit_cond :=
    succesful_minimzation inner || (500 <? inner_it_counter inner)%Z in
  negb exit_cond.

(** The initial tuple of the inner loop. *)
Definition inner_init (x u : list arr) (reg_param reg_inc : float)
    : inner_val :=
  {| temp_x := x; temp_u := u; succesful_minimzation := false;
     Hu_norm := 0; rp := reg_param; r_inc := reg_inc;
     inner_it_counter := 0 |}.

Definition while_body (fuel : nat) (ocp : OCP) (barrier_param : float)
    (v : val) : result val :=
  let x := x_nom v in
  let u := u_nom v in
  let cost := total_cost ocp x u barrier_param in
  derivatives <- compute_derivatives ocp x u barrier_param ;;
  inner <- while_loop fuel while_inner_cond
             (while_inner_loop ocp barrier_param x u cost derivatives
                (reg_inc v))
             (inner_init x u (reg_param v) (reg_inc v)) ;;
  Ok {| x_nom := temp_x inner;
        u_nom := temp_u inner;
        iterations := iterations v + 1;
        reg_param := rp inner;
        reg_inc := r_inc inner;
        Hamiltonian_norm := Hu_norm inner |}.

Definition while_cond (v : val) : bool :=
  let exit_cond :=
    (Hamiltonian_norm v <? 1e-4) || (500 <? iterations v)%Z in
  negb exit_cond.

(** The initial tuple of the outer loop. *)
Definition ddp_init (states controls : list arr) : val :=
  {| x_nom := states; u_nom := controls; iterations := 0;
     reg_param := 1; reg_inc := 2; Hamiltonian_norm := 1 |}.

Definition ddp (fuel : nat) (ocp : OCP) (controls : list arr)
    (initial_state : arr) (barrier_param : float)
    : result (list arr * list arr * Z) :=
  let states := rollout (dynamics ocp) controls initial_state in
  v <- while_loop fuel while_cond (while_body fuel ocp barrier_param)
         (ddp_init states controls) ;;
  Ok (x_nom v, u_nom v, iterations v).

(** ** [interior_point_ddp]: the barrier continuation *)

Definition ip_while_body (fuel : nat) (ocp : OCP) (initial_state : arr)
    (v : list arr * float * Z) : result (list arr * float * Z) :=
  let '(u, bp, t) := v in
  '(_, u, newton_iterations) <- ddp fuel ocp u initial_state bp ;;
  let bp := bp / 5 in
  let t := (t + newton_iterations)%Z in
  Ok (u, bp, t).

Definition ip_while_cond (v : list arr * float * Z) : bool :=
  let '(_, bp, _) := v in 1e-4 <? bp.

Definition interior_point_ddp (fuel : nat) (ocp : OCP) (controls : list arr)
    (initial_state : arr) : result (list arr * Z) :=
  let barrier_param := 0.1 in
  '(opt_u, _, N_iterations) <-
    while_loop fuel ip_while_cond (ip_while_body fuel ocp initial_state)
      (controls, barrier_param, 0%Z) ;;
  Ok (opt_u, N_iterations).

(** ** The backward recursion as the specification words it

    The action-value expansion about the value function [(Vx, Vxx)] carried
    from the later stage, with [rho] times the identity added to [Quu], and
    what a stage derives from it.  [Quu^-1 b] is the solve of a linear system
    with [Quu]. *)

Definition Qx_of (s : stage_derivatives) (V : arr * arr) : arr :=
  cx s +@ (fx s)^T @@ fst V.

Definition Qu_of (s : stage_derivatives) (V : arr * arr) : arr :=
  cu s +@ (fu s)^T @@ fst V.

Definition Qxx_of (s : stage_derivatives) (V : arr * arr) : arr :=
  cxx s +@ (fx s)^T @@ snd V @@ fx s +@ tensordot J (fst V) (fxx s).

Definition Qxu_of (s : stage_derivatives) (V : arr * arr) : arr :=
  cxu s +@ (fx s)^T @@ snd V @@ fu s +@ tensordot J (fst V) (fxu s).

(** [Quu] before the regularisation. *)
Definition Quu_raw (s : stage_derivatives) (V : arr * arr) : arr :=
  cuu s +@ (fu s)^T @@ snd V @@ fu s +@ tensordot J (fst V) (fuu s).

Definition Quu_of (rho : float) (s : stage_derivatives) (V : arr * arr)
    : arr :=
  Quu_raw s V +@ rho *@ eye_like J (Quu_raw s V).

(** [k = -Quu^-1 Qu]. *)
Definition feedforward (rho : float) (s : stage_derivatives) (V : arr * arr)
    : arr :=
  neg J (solve J (Quu_of rho s V) (Qu_of s V)).

(** [K = -Quu^-1 Qxu^T]. *)
Definition feedback (rho : float) (s : stage_derivatives) (V : arr * arr)
    : arr :=
  neg J (solve J (Quu_of rho s V) (Qxu_of s V)^T).

(** [dV = -1/2 Qu^T Quu^-1 Qu]. *)
Definition reduction (rho : float) (s : stage_derivatives) (V : arr * arr)
    : arr :=
  (-0.5) *@ Qu_of s V @@ solve J (Quu_of rho s V) (Qu_of s V).

(** All eigenvalues of [Quu] are strictly positive. *)
Definition positive_definite (rho : float) (s : stage_derivatives)
    (V : arr * arr) : Prop :=
  forall e, In e (elems J (eigh J (Quu_of rho s V))) -> (0 <? e) = true.

(** [Vx <- Qx - Qu Quu^-1 Qxu^T] and [Vxx <- Qxx - Qxu Quu^-1 Qxu^T]. *)
Definition value_update (rho : float) (s : stage_derivatives)
    (V : arr * arr) : arr * arr :=
  (Qx_of s V -@ Qu_of s V @@ solve J (Quu_of rho s V) (Qxu_of s V)^T,
   Qxx_of s V -@ Qxu_of s V @@ solve J (Quu_of rho s V) (Qxu_of s V)^T).

(** The value function in front of the stages [d], from the terminal one
    [VN] behind them: the recursion from the last stage down to the first. *)
Fixpoint value_from (rho : float) (VN : arr * arr) (d : Derivatives)
    : arr * arr :=
  match d with
  | [] => VN
  | s :: later => value_update rho s (value_from rho VN later)
  end.

(** The value function [V_k] at stage [k] of the horizon [d]; [V_N] is the
    terminal one. *)
Definition value_at (rho : float) (VN : arr * arr) (d : Derivatives)
    (k : nat) : arr * arr :=
  value_from rho VN (skipn k d).

(** Each stage [k] with the value function [V_(k+1)] carried into it. *)
Definition staged (rho : float) (VN : arr * arr) (d : Derivatives)
    : list (stage_derivatives * (arr * arr)) :=
  combine d (map (value_at rho VN d) (seq 1 (length d))).

End Solver.

Arguments cx {J} s.
Arguments cu {J} s.
Arguments cxx {J} s.
Arguments cuu {J} s.
Arguments cxu {J} s.
Arguments fx {J} s.
Arguments fu {J} s.
Arguments fxx {J} s.
Arguments fuu {J} s.
Arguments fxu {J} s.
Arguments dynamics {J} o _ _.
Arguments constraints {J} o _ _.
Arguments stage_cost {J} o _ _ _.
Arguments final_cost {J} o _.
Arguments total_cost {J} o _ _ _.
Arguments out_k {J} s.
Arguments out_K {J} s.
Arguments out_dV {J} s.
Arguments out_pos_def {J} s.
Arguments out_Qu {J} s.
Arguments ffgain {J} b.
Arguments gain {J} b.
Arguments pred_reduction {J} b.
Arguments feasible_bwd_pass {J} b.
Arguments Hu {J} b.
Arguments temp_x {J} i.
Arguments temp_u {J} i.
Arguments succesful_minimzation {J} i.
Arguments Hu_norm {J} i.
Arguments rp {J} i.
Arguments r_inc {J} i.
Arguments inner_it_counter {J} i.
Arguments x_nom {J} v.
Arguments u_nom {J} v.
Arguments iterations {J} v.
Arguments reg_param {J} v.
Arguments reg_inc {J} v.
Arguments Hamiltonian_norm {J} v.
Arguments last_error {A} l.

(** ** States a loop can reach *)

(** The states a [lax.while_loop] passes through from [s0], each step being
    one execution of the body under a true condition. *)
Inductive reachable {S : Type} (cond : S -> bool) (body : S -> result S)
    (s0 : S) : S -> Prop :=
| reach_init : reachable cond body s0 s0
| reach_step (s s' : S) :
    reachable cond body s0 s -> cond s = true -> body s = Ok s' ->
    reachable cond body s0 s'.

(** ** Classes of binary64 numbers *)

(** A number that is not NaN. *)
Definition nan_free (x : float) : Prop := Prim2SF x <> S754_nan.

(** The sign of a number that is not NaN. *)
Definition SFsigned (s : bool) (r : spec_float) : Prop :=
  match r with
  | S754_zero s' | S754_infinity s' | S754_finite s' _ _ => s' = s
  | S754_nan => False
  end.

(** A finite, non-zero number. *)
Definition finite_nonzero (x : float) : Prop :=
  exists s m e, Prim2SF x = S754_finite s m e.

(** The interval the regularisation scalar is clipped to. *)
Definition in_range (r : float) : Prop :=
  (1e-16 <=? r) = true /\ (r <=? 1e16) = true.

(** [+0] or a positive finite number. *)
Definition nonneg_finite (p : float) : bool :=
  match classify p with
  | PZero | PNormal | PSubn => true
  | _ => false
  end.

(** ** Scalar problems

    One state and one control: an array is a number, a matrix product is a
    product, the solve of a 1x1 system a quotient and the only eigenvalue of
    a 1x1 matrix its entry. *)

Definition scalar_ops : ArrayOps :=
  {| ndarray := float;
     elems := fun a => [a];
     plus := add;
     minus := sub;
     neg := opp;
     smul := mul;
     matmul := mul;
     transpose := fun a => a;
     tensordot := mul;
     eye_like := fun _ => 1;
     solve := fun a b => b / a;
     eigh := fun a => a |}.

(** The partial derivatives of a scalar problem, in closed form. *)
Record scalar_partials : Type := {
  d_final : float -> float;
  dd_final : float -> float;
  d_cx : float -> float -> float -> float;
  d_cu : float -> float -> float -> float;
  d_cxx : float -> float -> float -> float;
  d_cuu : float -> float -> float -> float;
  d_cxu : float -> float -> float -> float;
  d_fx : float -> float -> float;
  d_fu : float -> float -> float;
  d_fxx : float -> float -> float;
  d_fuu : float -> float -> float;
  d_fxu : float -> float -> float
}.

Definition scalar_ad (p : scalar_partials) : Autodiff scalar_ops :=
  Build_Autodiff scalar_ops
    (fun _ => d_final p)
    (fun _ => dd_final p)
    (fun _ x u bp => (d_cx p x u bp, d_cu p x u bp))
    (fun _ => d_cxx p)
    (fun _ => d_cuu p)
    (fun _ => d_cxu p)
    (fun _ x u => (d_fx p x u, d_fu p x u))
    (fun _ => d_fxx p)
    (fun _ => d_fuu p)
    (fun _ => d_fxu p).

(** The total cost of the examples: the final cost of the last state plus
    the sum of the stage costs. *)
Definition sum_total (stage : float -> float -> float -> float)
    (final : float -> float) (xs us : list float) (bp : float) : float :=
  final (last xs 0)
  + jsum (map (fun xu => stage (fst xu) (snd xu) bp)
            (combine (removelast xs) us)).

Definition integrator (x u : float) : float := x + u.

Definition integrator_partials (dF ddF : float -> float)
    (cu' cuu' : float -> float -> float) : scalar_partials :=
  {| d_final := dF; dd_final := ddF;
     d_cx := fun _ _ _ => 0; d_cu := fun _ u bp => cu' u bp;
     d_cxx := fun _ _ _ => 0; d_cuu := fun _ u bp => cuu' u bp;
     d_cxu := fun _ _ _ => 0;
     d_fx := fun _ _ => 1; d_fu := fun _ _ => 1;
     d_fxx := fun _ _ => 0; d_fuu := fun _ _ => 0; d_fxu := fun _ _ => 0 |}.

(** *** A bounded control with a barrier

    The integrator [x' = x + u] under [u^2 <= 1], the stage cost
    [0.05 u^2 + bp / (1 - u^2)] with its inverse barrier and the final cost
    [0.5 (x - 3)^2]. *)

Definition box_stage (x u bp : float) : float :=
  0.5 * 0.1 * u * u + bp / (1 - u * u).

Definition box_final (x : float) : float := 0.5 * (x - 3) * (x - 3).

Definition box_ocp : OCP scalar_ops :=
  Build_OCP scalar_ops integrator (fun x u => u * u - 1) box_stage box_final
    (sum_total box_stage box_final).

Definition box_ad : Autodiff scalar_ops :=
  scalar_ad (integrator_partials
    (fun x => x - 3) (fun _ => 1)
    (fun u bp => 0.1 * u + bp * (2 * u) / ((1 - u * u) * (1 - u * u)))
    (fun u bp =>
       0.1 + bp * (2 + 6 * u * u)
             / ((1 - u * u) * (1 - u * u) * (1 - u * u)))).

(** *** A linear cost

    The integrator with the stage cost [u], no final cost and a constraint
    that always holds. *)

Definition lin_ocp : OCP scalar_ops :=
  Build_OCP scalar_ops integrator (fun x u => -1) (fun x u bp => u)
    (fun x => 0) (sum_total (fun x u bp => u) (fun x => 0)).

Definition lin_ad : Autodiff scalar_ops :=
  scalar_ad (integrator_partials
    (fun _ => 0) (fun _ => 0) (fun _ _ => 1) (fun _ _ => 0)).

(** *** A state bound behind a control without first-order effect

    The dynamics [x' = x + u^3] under the state bound [x^2 <= 0.25], no
    final cost, and the stage cost
    [tiny (0.5 u^2 - u) + bp / sqrt (0.25 - x^2)]: its barrier is finite
    inside the bound, infinite on it and NaN outside, as the log barrier
    [- bp log (0.25 - x^2)] is, and like it has the first derivative 0 at
    [x = 0]; [tiny] is the least positive binary64 number. *)






(** The stage derivatives of a problem along a trajectory, or none when
    the shapes disagree. *)
Definition derivatives_of (AD : Autodiff scalar_ops) (ocp : OCP scalar_ops)
    (xs us : list float) (bp : float) : Derivatives scalar_ops :=
  match compute_derivatives scalar_ops AD ocp xs us bp with
  | Ok d => d
  | _ => []
  end.

(** * Facts and theorems *)

(** ** The constraints of [examples/constrained_linear_demo.py]

    [constraints(state, control)] of the demonstration: the state has two
    entries, the control one; the three residuals are stacked by
    [jnp.hstack]. *)

Definition demo_constraints (state : float * float) (control : float)
    : list float :=
  let g0 := control - 2.5 in
  let g1 := - control - 2.5 in
  let g3 := - snd state - 1.5 in
  [g0; g1; g3].

(** ** Facts on binary64 *)

Lemma compare_cont_Eq (p q : positive) :
  PosDef.Pos.compare_cont Eq p q = (p ?= q)%positive.
Proof. reflexivity. Qed.

Lemma SFcompare_refl (x : spec_float) :
  x <> S754_nan -> SFcompare x x = Some Eq.
Proof.
  destruct x as [s|s| |s m e]; simpl; intros H; try congruence.
  - now destruct s.
  - rewrite compare_cont_Eq.
    destruct s; now rewrite Z.compare_refl, Pos.compare_refl.
Qed.

Lemma SFcompare_antisym (x y : spec_float) :
  SFcompare y x = option_map CompOpp (SFcompare x y).
Proof.
  destruct x as [s|s| |s m e], y as [s'|s'| |s' m' e']; simpl;
    try reflexivity;
    try (destruct s; reflexivity); try (destruct s'; reflexivity);
    try (destruct s, s'; reflexivity).
  rewrite !compare_cont_Eq.
  destruct s, s'; simpl; try reflexivity;
    rewrite (Z.compare_antisym e e'), (Pos.compare_antisym m m');
    destruct (e ?= e')%Z; simpl; try reflexivity.
Qed.

Lemma is_nan_false (x : float) : is_nan x = false <-> nan_free x.
Proof.
  unfold is_nan, nan_free. rewrite FloatAxioms.eqb_spec. unfold SFeqb. split.
  - intros H E. rewrite E in H. discriminate.
  - intros H. now rewrite SFcompare_refl.
Qed.

Lemma is_nan_true (x : float) : is_nan x = true <-> Prim2SF x = S754_nan.
Proof.
  split.
  - intros H. destruct (Prim2SF x) eqn:E; try reflexivity;
      assert (N : is_nan x = false)
        by (apply is_nan_false; unfold nan_free; rewrite E; discriminate);
      congruence.
  - intros H. destruct (is_nan x) eqn:E; [reflexivity|].
    apply is_nan_false in E. contradiction.
Qed.

Lemma ltb_nan_free (x y : float) : (x <? y) = true -> nan_free x /\ nan_free y.
Proof.
  rewrite FloatAxioms.ltb_spec. unfold SFltb, nan_free.
  destruct (Prim2SF x), (Prim2SF y); simpl; try discriminate;
    intros _; split; discriminate.
Qed.

Lemma leb_nan_free (x y : float) : (x <=? y) = true -> nan_free x /\ nan_free y.
Proof.
  rewrite FloatAxioms.leb_spec. unfold SFleb, nan_free.
  destruct (Prim2SF x), (Prim2SF y); simpl; try discriminate;
    intros _; split; discriminate.
Qed.

Lemma ltb_leb (x y : float) : (x <? y) = true -> (x <=? y) = true.
Proof.
  rewrite FloatAxioms.ltb_spec, FloatAxioms.leb_spec. unfold SFltb, SFleb.
  now destruct (SFcompare (Prim2SF x) (Prim2SF y)) as [[]|].
Qed.

Lemma leb_refl (x : float) : nan_free x -> (x <=? x) = true.
Proof.
  intros H. rewrite FloatAxioms.leb_spec. unfold SFleb. now rewrite SFcompare_refl.
Qed.

Lemma not_ltb_leb (x y : float) :
  nan_free x -> nan_free y -> (x <? y) = false -> (y <=? x) = true.
Proof.
  unfold nan_free. rewrite FloatAxioms.ltb_spec, FloatAxioms.leb_spec. unfold SFltb, SFleb.
  rewrite (SFcompare_antisym (Prim2SF x) (Prim2SF y)).
  intros Hx Hy.
  destruct (SFcompare (Prim2SF x) (Prim2SF y)) as [[]|] eqn:E; simpl;
    try reflexivity; try discriminate.
  destruct (Prim2SF x), (Prim2SF y); simpl in E; congruence.
Qed.

(** *** Rounding keeps the sign and never makes a NaN *)

Lemma iter_pos_inv {A : Type} (P : A -> Prop) (f : A -> A) :
  (forall a, P a -> P (f a)) -> forall n a, P a -> P (SpecFloat.iter_pos f n a).
Proof.
  intros Hf. induction n as [n IH|n IH|]; simpl; intros a Ha; auto.
Qed.

Lemma shr_1_nonneg (mrs : shr_record) :
  (0 <= shr_m mrs)%Z -> (0 <= shr_m (shr_1 mrs))%Z.
Proof.
  destruct mrs as [m r s]. simpl.
  destruct m as [|[p|p|]|[p|p|]]; simpl; lia.
Qed.

Lemma shr_nonneg (mrs : shr_record) (e n : Z) :
  (0 <= shr_m mrs)%Z -> (0 <= shr_m (fst (shr mrs e n)))%Z.
Proof.
  intros H. unfold shr. destruct n; simpl; auto.
  apply (iter_pos_inv (fun r => (0 <= shr_m r)%Z)); auto using shr_1_nonneg.
Qed.

Lemma shr_fexp_nonneg (m e : Z) (l : location) :
  (0 <= m)%Z -> (0 <= shr_m (fst (shr_fexp prec emax m e l)))%Z.
Proof.
  intros H. unfold shr_fexp. apply shr_nonneg.
  destruct l as [|[]]; simpl; exact H.
Qed.

Lemma round_nearest_even_nonneg (m : Z) (l : location) :
  (0 <= m)%Z -> (0 <= round_nearest_even m l)%Z.
Proof.
  intros H. unfold round_nearest_even.
  destruct l as [|[]]; try destruct (Z.even m); lia.
Qed.

Lemma binary_round_aux_signed (s : bool) (m e : Z) (l : location) :
  (0 <= m)%Z -> SFsigned s (binary_round_aux prec emax s m e l).
Proof.
  intros H. unfold binary_round_aux.
  pose proof (shr_fexp_nonneg m e l H) as H1.
  destruct (shr_fexp prec emax m e l) as [mrs' e'] eqn:E1. simpl in H1.
  pose proof (shr_fexp_nonneg _ e' loc_Exact
                (round_nearest_even_nonneg _ (loc_of_shr_record mrs') H1)) as H2.
  destruct (shr_fexp prec emax (round_nearest_even _ _) e' loc_Exact)
    as [mrs'' e''] eqn:E2. simpl in H2.
  destruct (shr_m mrs'') as [|p|p]; cbn; try reflexivity.
  - destruct (e'' <=? 971)%Z; reflexivity.
  - lia.
Qed.

Lemma binary_round_aux_sign_or_nan (s : bool) (m e : Z) (l : location) :
  let r := binary_round_aux prec emax s m e l in r = S754_nan \/ SFsigned s r.
Proof.
  unfold binary_round_aux.
  destruct (shr_fexp prec emax m e l) as [mrs' e'].
  destruct (shr_fexp prec emax _ e' loc_Exact) as [mrs'' e''].
  destruct (shr_m mrs'') as [|p|p]; cbn; auto.
  destruct (e'' <=? 971)%Z; cbn; auto.
Qed.

Lemma binary_round_signed (s : bool) (m : positive) (e : Z) :
  SFsigned s (binary_round prec emax s m e).
Proof.
  unfold binary_round.
  destruct (shl_align m e _) as [mz ez].
  apply binary_round_aux_signed. lia.
Qed.

Lemma binary_normalize_not_nan (m e : Z) (sz : bool) :
  binary_normalize prec emax m e sz <> S754_nan.
Proof.
  destruct m as [|p|p]; simpl; try discriminate;
    pose proof (binary_round_signed false p e) as Hf;
    pose proof (binary_round_signed true p e) as Ht;
    intros E; rewrite E in *; assumption.
Qed.

Lemma mul_finite_nan_free (x y : float) :
  finite_nonzero x -> nan_free y -> nan_free (x * y).
Proof.
  intros (s & m & e & Hx) Hy. unfold nan_free in *.
  rewrite FloatAxioms.mul_spec, Hx. unfold SF64mul.
  destruct (Prim2SF y) as [sy|sy| |sy my ey]; simpl; try discriminate;
    try congruence.
  intros E.
  pose proof (binary_round_aux_signed (xorb s sy) (Z.pos (m * my)) (e + ey)
                loc_Exact ltac:(lia)) as H.
  rewrite E in H. exact H.
Qed.

Lemma mul_nan_free_finite (x y : float) :
  nan_free x -> finite_nonzero y -> nan_free (x * y).
Proof.
  intros Hx (s & m & e & Hy). unfold nan_free in *.
  rewrite FloatAxioms.mul_spec, Hy. unfold SF64mul.
  destruct (Prim2SF x) as [sx|sx| |sx mx ex]; simpl; try discriminate;
    try congruence.
  intros E.
  pose proof (binary_round_aux_signed (xorb sx s) (Z.pos (mx * m)) (ex + e)
                loc_Exact ltac:(lia)) as H.
  rewrite E in H. exact H.
Qed.

Lemma mul_self_nan_free (x : float) : nan_free x -> nan_free (x * x).
Proof.
  unfold nan_free. rewrite FloatAxioms.mul_spec. unfold SF64mul.
  destruct (Prim2SF x) as [sx|sx| |sx mx ex]; simpl; try discriminate;
    try congruence.
  intros _ E.
  pose proof (binary_round_aux_signed (xorb sx sx) (Z.pos (mx * mx)) (ex + ex)
                loc_Exact ltac:(lia)) as H.
  rewrite E in H. exact H.
Qed.

Lemma sub_finite_r_nan_free (x y : float) :
  nan_free x -> finite_nonzero y -> nan_free (x - y).
Proof.
  intros Hx (s & m & e & Hy). unfold nan_free in *.
  rewrite FloatAxioms.sub_spec, Hy. unfold SF64sub.
  destruct (Prim2SF x) as [sx|sx| |sx mx ex]; simpl; try discriminate;
    try congruence.
  apply binary_normalize_not_nan.
Qed.

Lemma sub_finite_l_nan_free (x y : float) :
  finite_nonzero x -> nan_free y -> nan_free (x - y).
Proof.
  intros (s & m & e & Hx) Hy. unfold nan_free in *.
  rewrite FloatAxioms.sub_spec, Hx. unfold SF64sub.
  destruct (Prim2SF y) as [sy|sy| |sy my ey]; simpl; try discriminate;
    try congruence.
  apply binary_normalize_not_nan.
Qed.


Lemma maximum_nan_free (a b : float) :
  nan_free a -> nan_free b -> nan_free (maximum a b).
Proof.
  intros Ha Hb. unfold maximum.
  rewrite (proj2 (is_nan_false a) Ha), (proj2 (is_nan_false b) Hb).
  now destruct (a <? b).
Qed.

Lemma maximum_lower (lo a : float) :
  nan_free lo -> nan_free a -> (lo <=? maximum lo a) = true.
Proof.
  intros Hlo Ha. unfold maximum.
  rewrite (proj2 (is_nan_false lo) Hlo), (proj2 (is_nan_false a) Ha).
  destruct (lo <? a) eqn:E; [now apply ltb_leb | now apply leb_refl].
Qed.

Lemma clip_in_range (a : float) : nan_free a -> in_range (clip a 1e-16 1e16).
Proof.
  intros Ha.
  assert (Hlo : nan_free 1e-16) by (apply is_nan_false; reflexivity).
  assert (Hhi : nan_free 1e16) by (apply is_nan_false; reflexivity).
  pose proof (maximum_nan_free _ _ Hlo Ha) as Hm.
  pose proof (maximum_lower _ _ Hlo Ha) as Hl.
  unfold clip, minimum.
  rewrite (proj2 (is_nan_false _) Hhi), (proj2 (is_nan_false _) Hm).
  destruct (maximum 1e-16 a <? 1e16) eqn:E; split; auto.
  - now apply ltb_leb.
Qed.

Lemma in_range_finite_nonzero (r : float) : in_range r -> finite_nonzero r.
Proof.
  intros [H1 H2]. unfold finite_nonzero.
  rewrite FloatAxioms.leb_spec in H1, H2. unfold SFleb in *.
  destruct (Prim2SF r) as [s|s| |s m e]; eauto;
    try (vm_compute in H1; discriminate).
  - destruct s; vm_compute in H1, H2; discriminate.
Qed.


Lemma nonneg_finite_spec (p : float) :
  nonneg_finite p = true <->
  Prim2SF p = S754_zero false \/ exists m e, Prim2SF p = S754_finite false m e.
Proof.
  unfold nonneg_finite. rewrite FloatAxioms.classify_spec.
  unfold SF64classify, SFclassify.
  destruct (Prim2SF p) as [s|s| |s m e]; try destruct s;
    try destruct (Z.pos (digits2_pos m) =? prec)%Z;
    split; intros H; try discriminate; try reflexivity; eauto;
    destruct H as [H|(m' & e' & H)]; discriminate.
Qed.

(** The gain ratio of a candidate of infinite cost is positive exactly when
    the nominal cost is below [+inf] and the predicted reduction is [+0] or
    positive and finite. *)
Lemma inf_gain_positive (cost p : float) :
  (0 <? gain_ratio_of infinity cost p) = true <->
  (cost <? infinity) = true /\ nonneg_finite p = true.
Proof.
  rewrite nonneg_finite_spec. unfold gain_ratio_of.
  rewrite !FloatAxioms.ltb_spec, FloatAxioms.div_spec, FloatAxioms.sub_spec.
  change (Prim2SF infinity) with (S754_infinity false).
  change (Prim2SF 0) with (S754_zero false).
  unfold SF64div, SF64sub, SFltb.
  destruct (Prim2SF cost) as [sc|sc| |sc mc ec]; try destruct sc;
    destruct (Prim2SF p) as [sp|sp| |sp mp ep]; try destruct sp; simpl;
    split; intros H; try discriminate; try (split; eauto; fail);
    try (destruct H as [H1 [H2|(m' & e' & H2)]]; discriminate).
Qed.

Lemma neg_pred_not_nonneg_finite (p : float) :
  (p <? 0) = true -> nonneg_finite p = false.
Proof.
  intros H. destruct (nonneg_finite p) eqn:E; [|reflexivity].
  apply nonneg_finite_spec in E.
  rewrite FloatAxioms.ltb_spec in H. unfold SFltb in H.
  change (Prim2SF 0) with (S754_zero false) in H.
  destruct E as [E|(m & e & E)]; rewrite E in H; discriminate.
Qed.


(** *** The sign of a quotient *)

Lemma div_pos_by_neg (a p : float) :
  (0 <? a / p) = true -> (p <? 0) = true -> (a <? 0) = true.
Proof.
  rewrite !FloatAxioms.ltb_spec, FloatAxioms.div_spec.
  change (Prim2SF 0) with (S754_zero false).
  unfold SF64div, SFltb.
  destruct (Prim2SF a) as [sa|sa| |sa ma ea]; try destruct sa;
    destruct (Prim2SF p) as [sp|sp| |sp mp ep]; try destruct sp; simpl;
    intros H1 H2; try discriminate; try reflexivity.
  destruct (SFdiv_core_binary prec emax (Z.pos ma) ea (Z.pos mp) ep)
    as [[mz ez] lz].
  destruct (binary_round_aux_sign_or_nan true mz ez lz) as [E|E];
    cbv zeta in E; simpl xorb in H1.
  - rewrite E in H1. discriminate.
  - destruct (binary_round_aux prec emax true mz ez lz) as [s|s| |s m e];
      simpl in E; subst; simpl in H1; try discriminate; contradiction.
Qed.

(** *** The sign of a difference *)

Lemma digits2_pos_bounds (m : positive) :
  (2 ^ (Z.pos (digits2_pos m) - 1) <= Z.pos m < 2 ^ Z.pos (digits2_pos m))%Z.
Proof.
  induction m as [m IH|m IH|]; simpl digits2_pos.
  - rewrite Pos2Z.inj_succ.
    replace (Z.succ (Z.pos (digits2_pos m)) - 1)%Z
      with (Z.succ (Z.pos (digits2_pos m) - 1)) by lia.
    rewrite !Z.pow_succ_r by lia. lia.
  - rewrite Pos2Z.inj_succ.
    replace (Z.succ (Z.pos (digits2_pos m)) - 1)%Z
      with (Z.succ (Z.pos (digits2_pos m) - 1)) by lia.
    rewrite !Z.pow_succ_r by lia. lia.
  - simpl. lia.
Qed.

Lemma shl_align_fst (m : positive) (e ez : Z) :
  (ez <= e)%Z -> Z.pos (fst (shl_align m e ez)) = (Z.pos m * 2 ^ (e - ez))%Z.
Proof.
  intros H. unfold shl_align.
  destruct (ez - e)%Z as [|d|d] eqn:E; simpl.
  - replace (e - ez)%Z with 0%Z by lia. simpl. lia.
  - lia.
  - replace (e - ez)%Z with (Z.pos d) by lia.
    change (Pos.iter xO m d) with (shift_pos d m).
    rewrite shift_pos_correct. apply Z.mul_comm.
Qed.

Lemma bounded_digits (m : positive) (e : Z) :
  bounded prec emax m e = true ->
  (-1074 <= e)%Z /\ (Z.pos m < 2 ^ 53)%Z /\
  ((-1074 < e)%Z -> (2 ^ 52 <= Z.pos m)%Z).
Proof.
  unfold bounded, canonical_mantissa, fexp, SpecFloat.emin.
  change (3 - emax - prec)%Z with (-1074)%Z. change prec with 53%Z.
  intros H. apply andb_true_iff in H. destruct H as [H _].
  apply Z.eqb_eq in H.
  pose proof (digits2_pos_bounds m) as [B1 B2].
  set (d := Z.pos (digits2_pos m)) in *.
  assert (Hd : (d <= 53)%Z) by lia.
  repeat split.
  - lia.
  - apply Z.lt_le_trans with (1 := B2). apply Z.pow_le_mono_r; lia.
  - intros He. assert (d = 53%Z) by lia. subst d.
    rewrite H0 in B1. exact B1.
Qed.

Lemma binary_normalize_neg (m e : Z) :
  SFltb (binary_normalize prec emax m e false) (S754_zero false) = true ->
  (m < 0)%Z.
Proof.
  destruct m as [|p|p]; simpl binary_normalize; intros H; try lia.
  - discriminate.
  - pose proof (binary_round_signed false p e) as Hs.
    destruct (binary_round prec emax false p e); simpl in Hs; subst;
      try discriminate; contradiction.
Qed.

Lemma SFsub_finite_neg_lt (sx sy : bool) (mx my : positive) (ex ey : Z) :
  bounded prec emax mx ex = true -> bounded prec emax my ey = true ->
  let ez := Z.min ex ey in
  (cond_Zopp sx (Z.pos (fst (shl_align mx ex ez))) -
   cond_Zopp sy (Z.pos (fst (shl_align my ey ez))) < 0)%Z ->
  SFltb (S754_finite sx mx ex) (S754_finite sy my ey) = true.
Proof.
  intros Bx By ez.
  rewrite !shl_align_fst by (subst ez; lia).
  apply bounded_digits in Bx, By.
  destruct Bx as (Ex & Ux & Lx), By as (Ey & Uy & Ly).
  unfold SFltb, SFcompare. rewrite compare_cont_Eq.
  assert (P2 : forall k, (1 <= k)%Z -> (2 <= 2 ^ k)%Z).
  { intros k Hk. change 2%Z with (2 ^ 1)%Z at 1.
    apply Z.pow_le_mono_r; lia. }
  destruct sx, sy; unfold cond_Zopp; intros H; try reflexivity.
  - (* both negative *)
    destruct (Z.compare_spec ex ey) as [E|E|E]; try reflexivity.
    + subst ey. subst ez. rewrite Z.min_id, Z.sub_diag, Z.pow_0_r, !Z.mul_1_r in H.
      rewrite Pos.compare_antisym.
      assert (L : (my < mx)%positive) by lia.
      apply Pos.compare_lt_iff in L. now rewrite L.
    + exfalso. subst ez. rewrite Z.min_l in H by lia.
      rewrite Z.sub_diag, Z.pow_0_r, Z.mul_1_r in H.
      specialize (Ly ltac:(lia)). specialize (P2 (ey - ex)%Z ltac:(lia)).
      nia.
  - (* positive minus negative *)
    exfalso.
    assert (0 < 2 ^ (ex - ez))%Z by (apply Z.pow_pos_nonneg; subst ez; lia).
    assert (0 < 2 ^ (ey - ez))%Z by (apply Z.pow_pos_nonneg; subst ez; lia).
    nia.
  - (* both positive *)
    destruct (Z.compare_spec ex ey) as [E|E|E]; try reflexivity.
    + subst ey. subst ez. rewrite Z.min_id, Z.sub_diag, Z.pow_0_r, !Z.mul_1_r in H.
      assert (L : (mx < my)%positive) by lia.
      apply Pos.compare_lt_iff in L. now rewrite L.
    + exfalso. subst ez. rewrite Z.min_r in H by lia.
      rewrite Z.sub_diag, Z.pow_0_r, Z.mul_1_r in H.
      specialize (Lx ltac:(lia)). specialize (P2 (ex - ey)%Z ltac:(lia)).
      nia.
Qed.

Lemma SFsub_neg_lt (x y : spec_float) :
  valid_binary x = true -> valid_binary y = true ->
  SFltb (SF64sub x y) (S754_zero false) = true -> SFltb x y = true.
Proof.
  intros Vx Vy.
  destruct x as [sx|sx| |sx mx ex], y as [sy|sy| |sy my ey];
    try (try destruct sx; try destruct sy; simpl; intros H;
         try discriminate; reflexivity).
  unfold SF64sub, SFsub. intros H. apply binary_normalize_neg in H.
  now apply SFsub_finite_neg_lt.
Qed.

Lemma sub_neg_ltb (n c : float) : (n - c <? 0) = true -> (n <? c) = true.
Proof.
  rewrite !FloatAxioms.ltb_spec, FloatAxioms.sub_spec.
  change (Prim2SF 0) with (S754_zero false).
  apply SFsub_neg_lt; apply Prim2SF_valid.
Qed.

(** An accepted gain ratio with a negative predicted reduction means the
    new cost is strictly below the old one. *)
Lemma gain_positive_descent (new_cost cost p : float) :
  (0 <? gain_ratio_of new_cost cost p) = true -> (p <? 0) = true ->
  (new_cost <? cost) = true.
Proof.
  unfold gain_ratio_of. intros H Hp.
  apply sub_neg_ltb. now apply div_pos_by_neg with (p := p).
Qed.

(** ** Facts on the loops *)

Section LoopFacts.
Context {S : Type}.
Variables (cond : S -> bool) (body : S -> result S).

Lemma while_loop_steps (fuel : nat) (s : S) :
  while_loop fuel cond body s =
  (r <- while_steps fuel cond body s ;; Ok (fst r)).
Proof.
  revert s. induction fuel as [|fuel IH]; intros s; simpl.
  - now destruct (cond s).
  - destruct (cond s); [|reflexivity].
    destruct (body s) as [s'| |]; simpl; try reflexivity.
    rewrite IH.
    now destruct (while_steps fuel cond body s') as [[s'' n]| |].
Qed.

Lemma reachable_trans (s0 s1 s2 : S) :
  reachable cond body s0 s1 -> reachable cond body s1 s2 ->
  reachable cond body s0 s2.
Proof.
  intros H1 H2. induction H2; eauto using reach_step.
Qed.

Lemma reachable_invariant (P : S -> Prop) (s0 : S) :
  P s0 ->
  (forall s s', P s -> cond s = true -> body s = Ok s' -> P s') ->
  forall s, reachable cond body s0 s -> P s.
Proof.
  intros H0 Hstep s Hr. induction Hr; eauto.
Qed.

Lemma while_loop_reachable (fuel : nat) (s s' : S) :
  while_loop fuel cond body s = Ok s' ->
  reachable cond body s s' /\ cond s' = false.
Proof.
  revert s. induction fuel as [|fuel IH]; intros s; simpl;
    destruct (cond s) eqn:C; try discriminate.
  - intros [= <-]. split; [constructor | exact C].
  - destruct (body s) as [s1| |] eqn:B; simpl; try discriminate.
    intros H. apply IH in H. destruct H as [Hr Hc]. split; [|exact Hc].
    apply reachable_trans with s1; [|exact Hr].
    eapply reach_step; [constructor | exact C | exact B].
  - intros [= <-]. split; [constructor | exact C].
Qed.

(** A loop that is entered ends with an execution of its body. *)
Lemma while_loop_last_step (fuel : nat) (s s' : S) :
  while_loop fuel cond body s = Ok s' -> cond s = true ->
  exists p, reachable cond body s p /\ cond p = true /\ body p = Ok s' /\
            cond s' = false.
Proof.
  revert s. induction fuel as [|fuel IH]; intros s; simpl;
    destruct (cond s) eqn:C; try discriminate.
  intros H _.
  destruct (body s) as [s1| |] eqn:B; simpl in H; try discriminate.
  destruct (cond s1) eqn:C1.
  - destruct (IH s1 H C1) as (p & Hr & Hp & Hb & Hc).
    exists p. repeat split; auto.
    apply reachable_trans with s1; [|exact Hr].
    eapply reach_step; [constructor | exact C | exact B].
  - exists s. destruct fuel; simpl in H; rewrite C1 in H;
      injection H as <-; repeat split; auto; constructor.
Qed.

(** A loop whose condition caps a counter that every execution of the body
    advances by one stops within the cap, whatever fuel is left. *)
Lemma while_steps_capped (counter : S -> Z) (cap : Z) :
  (forall s, cond s = true -> (counter s <= cap)%Z) ->
  (forall s s', body s = Ok s' -> counter s' = (counter s + 1)%Z) ->
  (forall s, body s <> OutOfFuel) ->
  forall fuel s,
    (cap + 1 - counter s <= Z.of_nat fuel)%Z ->
    match while_steps fuel cond body s with
    | Ok (_, n) => (Z.of_nat n <= Z.max 0 (cap + 1 - counter s))%Z
    | Raised => True
    | OutOfFuel => False
    end.
Proof.
  intros Hcap Hinc Hbody.
  induction fuel as [|fuel IH]; intros s Hf; simpl;
    destruct (cond s) eqn:C; try lia.
  - apply Hcap in C. lia.
  - specialize (Hcap s C).
    destruct (body s) as [s1| |] eqn:B; simpl; auto.
    + specialize (Hinc s s1 B). specialize (IH s1 ltac:(lia)).
      destruct (while_steps fuel cond body s1) as [[s2 n]| |]; simpl; auto.
      lia.
    + now apply Hbody in B.
Qed.

Lemma while_loop_not_out_of_fuel (fuel : nat) (s : S) :
  while_loop fuel cond body s = OutOfFuel <->
  while_steps fuel cond body s = OutOfFuel.
Proof.
  rewrite while_loop_steps.
  destruct (while_steps fuel cond body s) as [[s' n]| |]; simpl;
    split; intros H; try discriminate; reflexivity.
Qed.
End LoopFacts.

(** ** Facts on lists *)

Lemma removelast_snoc {A : Type} (l : list A) (a : A) :
  removelast (l ++ [a]) = l.
Proof. apply removelast_last. Qed.

Lemma vmap2_length {A B C : Type} (f : A -> B -> C) (xs : list A)
    (ys : list B) (r : list C) :
  vmap2 f xs ys = Ok r -> length xs = length ys /\ length r = length xs.
Proof.
  revert ys r. induction xs as [|x xs IH]; intros [|y ys] r; simpl;
    try discriminate.
  - intros [= <-]. auto.
  - destruct (vmap2 f xs ys) as [r'| |] eqn:E; simpl; try discriminate.
    intros [= <-]. destruct (IH _ _ E). simpl. lia.
Qed.

Lemma slices4_total {A B C D : Type} (a : list A) (b : list B) (c : list C)
    (d : list D) :
  length b = length a -> length c = length a -> length d = length a ->
  exists l, slices4 a b c d = Ok l /\ length l = length a /\
    forall k, nth_error l k =
      match nth_error a k, nth_error b k, nth_error c k, nth_error d k with
      | Some x, Some y, Some z, Some w => Some (x, y, z, w)
      | _, _, _, _ => None
      end.
Proof.
  revert b c d. induction a as [|x a IH]; intros [|y b] [|z c] [|w d];
    simpl; try discriminate.
  - intros _ _ _. exists []. repeat split. now intros [|k].
  - intros Hb Hc Hd.
    destruct (IH b c d) as (l & -> & Hl & Hn); try lia.
    exists ((x, y, z, w) :: l). simpl. repeat split; [lia|].
    intros [|k]; simpl; [reflexivity | apply Hn].
Qed.

Section SolverFacts.
Variable J : ArrayOps.
Variable AD : Autodiff J.

Abbreviation arr := (ndarray J).
Infix "+@" := (plus J) (at level 50, left associativity).
Infix "-@" := (minus J) (at level 50, left associativity).
Infix "@@" := (matmul J) (at level 40, left associativity).
Infix "*@" := (smul J) (at level 40, left associativity).
Notation "a ^T" := (transpose J a) (at level 1, format "a ^T").

(** ** The backward pass *)

Lemma bwd_body_spec (rho : float) (V : arr * arr) (s : stage_derivatives J) :
  bwd_body J rho V s =
  (value_update J rho s V,
   {| out_k := feedforward J rho s V;
      out_K := feedback J rho s V;
      out_dV := reduction J rho s V;
      out_pos_def :=
        forallb (fun e => 0 <? e) (elems J (eigh J (Quu_of J rho s V)));
      out_Qu := Qu_of J s V |}).
Proof. destruct V as [Vx Vxx]. reflexivity. Qed.

Lemma value_at_cons (rho : float) (VN : arr * arr) (s : stage_derivatives J)
    (d : Derivatives J) (k : nat) :
  value_at J rho VN (s :: d) (S k) = value_at J rho VN d k.
Proof. reflexivity. Qed.

Lemma staged_cons (rho : float) (VN : arr * arr) (s : stage_derivatives J)
    (d : Derivatives J) :
  staged J rho VN (s :: d) = (s, value_from J rho VN d) :: staged J rho VN d.
Proof.
  unfold staged. simpl length. simpl seq. simpl map. simpl combine.
  f_equal. f_equal. rewrite <- seq_shift, map_map. reflexivity.
Qed.

Lemma staged_length (rho : float) (VN : arr * arr) (d : Derivatives J) :
  length (staged J rho VN d) = length d.
Proof.
  unfold staged. rewrite length_combine, length_map, length_seq. lia.
Qed.

Lemma staged_nth (rho : float) (VN : arr * arr) (d : Derivatives J)
    (k : nat) (s : stage_derivatives J) :
  nth_error d k = Some s ->
  nth_error (staged J rho VN d) k = Some (s, value_at J rho VN d (S k)).
Proof.
  revert k. induction d as [|s0 d IH]; intros [|k] H;
    try discriminate; rewrite staged_cons.
  - injection H as ->. reflexivity.
  - simpl in H |- *. rewrite value_at_cons. now apply IH.
Qed.

Lemma value_at_step (rho : float) (VN : arr * arr) (d : Derivatives J)
    (k : nat) (s : stage_derivatives J) :
  nth_error d k = Some s ->
  value_at J rho VN d k = value_update J rho s (value_at J rho VN d (S k)).
Proof.
  unfold value_at. revert k.
  induction d as [|s0 d IH]; intros [|k]; simpl; try discriminate.
  - now intros [= ->].
  - apply IH.
Qed.

(** The reverse scan computes the recursion on the value function, and emits
    at each stage what the stage derives from the value function behind it. *)
Lemma scan_reverse_bwd (rho : float) (VN : arr * arr) (d : Derivatives J) :
  scan_reverse (bwd_body J rho) VN d =
  (value_from J rho VN d,
   map (fun sv => snd (bwd_body J rho (snd sv) (fst sv))) (staged J rho VN d)).
Proof.
  induction d as [|s d IH]; [reflexivity|].
  simpl scan_reverse. rewrite IH, staged_cons. cbn [map fst snd].
  rewrite bwd_body_spec. reflexivity.
Qed.

Lemma forallb_id_map {A : Type} (f : A -> bool) (l : list A) :
  forallb (fun b => b) (map f l) = forallb f l.
Proof. induction l as [|a l IH]; simpl; [reflexivity | now rewrite IH]. Qed.

(** C1: the backward pass is the Bellman recursion from the last stage down
    to the first, started from the gradient and Hessian of the final cost:
    stage [k] emits [k = -Quu^-1 Qu], [K = -Quu^-1 Qxu^T] and [Qu] from the
    value function [V_(k+1)], which obeys [Vx <- Qx - Qu Quu^-1 Qxu^T],
    [Vxx <- Qxx - Qxu Quu^-1 Qxu^T]; the predicted reduction is the sum of
    the [dV = -1/2 Qu^T Quu^-1 Qu] of the stages, and the pass is feasible
    exactly when every eigenvalue of the regularised [Quu] of every stage is
    strictly positive. *)
Theorem bwd_pass_bellman (final_cost : arr -> float) (final_state : arr)
    (d : Derivatives J) (reg_param : float) :
  let rho := reg_param * norm J (map cu d) in
  let VN := (grad J AD final_cost final_state,
             hessian J AD final_cost final_state) in
  let r := bwd_pass J AD final_cost final_state d reg_param in
  let stages := staged J rho VN d in
  length stages = length d /\
  (forall k s, nth_error d k = Some s ->
     nth_error stages k = Some (s, value_at J rho VN d (S k))) /\
  value_at J rho VN d (length d) = VN /\
  (forall k s, nth_error d k = Some s ->
     value_at J rho VN d k = value_update J rho s (value_at J rho VN d (S k))) /\
  ffgain r = map (fun sv => feedforward J rho (fst sv) (snd sv)) stages /\
  gain r = map (fun sv => feedback J rho (fst sv) (snd sv)) stages /\
  Hu r = map (fun sv => Qu_of J (fst sv) (snd sv)) stages /\
  pred_reduction r =
    jsum (flat J (map (fun sv => reduction J rho (fst sv) (snd sv)) stages)) /\
  (feasible_bwd_pass r = true <->
   forall sv, In sv stages -> positive_definite J rho (fst sv) (snd sv)).
Proof.
  intros rho VN r stages.
  assert (R : r =
    let outs :=
      map (fun sv => snd (bwd_body J rho (snd sv) (fst sv))) stages in
    {| ffgain := map out_k outs; gain := map out_K outs;
       pred_reduction := jsum (flat J (map out_dV outs));
       feasible_bwd_pass := jall (map out_pos_def outs);
       Hu := map out_Qu outs |}).
  { subst r. unfold bwd_pass, bwd_scan. fold rho. fold VN.
    rewrite scan_reverse_bwd. reflexivity. }
  split; [apply staged_length|].
  split; [intros k s; apply staged_nth|].
  split.
  { unfold value_at. rewrite skipn_all. reflexivity. }
  split.
  { intros k s. apply value_at_step. }
  rewrite R. cbv zeta. simpl.
  rewrite !map_map.
  repeat split.
  - apply map_ext. intros [s V]. now rewrite bwd_body_spec.
  - apply map_ext. intros [s V]. now rewrite bwd_body_spec.
  - apply map_ext. intros [s V]. now rewrite bwd_body_spec.
  - do 2 f_equal. apply map_ext. intros [s V]. now rewrite bwd_body_spec.
  - unfold jall. rewrite forallb_id_map, forallb_forall.
    intros H [s V] Hin e He. specialize (H _ Hin).
    rewrite bwd_body_spec in H. simpl in H.
    rewrite forallb_forall in H. now apply H.
  - unfold jall. rewrite forallb_id_map, forallb_forall.
    intros H [s V] Hin. rewrite bwd_body_spec. simpl.
    rewrite forallb_forall. intros e He. exact (H _ Hin e He).
Qed.

(** C8: at every stage the backward pass adds to [Quu], before the test of
    positive definiteness and before every linear solve, the identity times
    one scalar, [reg_param] times the norm of the control gradient of the
    cost over the horizon. *)
Theorem bwd_pass_regularisation (final_cost : arr -> float)
    (final_state : arr) (d : Derivatives J) (reg_param : float) (k : nat)
    (s : stage_derivatives J) :
  nth_error d k = Some s ->
  let rho := reg_param * norm J (map cu d) in
  let VN := (grad J AD final_cost final_state,
             hessian J AD final_cost final_state) in
  let V := value_at J rho VN d (S k) in
  let Quu := Quu_raw J s V +@ rho *@ eye_like J (Quu_raw J s V) in
  exists out,
    nth_error (snd (bwd_scan J AD final_cost final_state d reg_param)) k
      = Some out /\
    out_pos_def out = forallb (fun e => 0 <? e) (elems J (eigh J Quu)) /\
    out_k out = neg J (solve J Quu (Qu_of J s V)) /\
    out_K out = neg J (solve J Quu (Qxu_of J s V)^T) /\
    out_dV out = (-0.5) *@ Qu_of J s V @@ solve J Quu (Qu_of J s V) /\
    value_at J rho VN d k =
      (Qx_of J s V -@ Qu_of J s V @@ solve J Quu (Qxu_of J s V)^T,
       Qxx_of J s V -@ Qxu_of J s V @@ solve J Quu (Qxu_of J s V)^T).
Proof.
  intros Hk rho VN V Quu.
  unfold bwd_scan. fold rho. fold VN. rewrite scan_reverse_bwd. simpl snd.
  rewrite nth_error_map, (staged_nth rho VN d k s Hk). simpl.
  eexists. split; [reflexivity|].
  rewrite bwd_body_spec. simpl. repeat split.
  exact (value_at_step rho VN d k s Hk).
Qed.

(** ** The rollout *)

Lemma rollout_scan (ocp : OCP J) (inps : list (arr * arr * arr * arr))
    (x0 : arr) :
  let r := scan (rollout_body J ocp) x0 inps in
  let xs := map fst (snd r) ++ [fst r] in
  let us := map snd (snd r) in
  length us = length inps /\ length xs = S (length inps) /\
  nth_error xs 0 = Some x0 /\
  forall k K kff x u, nth_error inps k = Some (K, kff, x, u) ->
    exists x_hat,
      nth_error xs k = Some x_hat /\
      nth_error us k = Some (u +@ kff +@ K @@ (x_hat -@ x)) /\
      nth_error xs (S k) =
        Some (dynamics ocp x_hat (u +@ kff +@ K @@ (x_hat -@ x))).
Proof.
  revert x0. induction inps as [|[[[K0 k0] xn] un] inps IH]; intros x0.
  - simpl. split; [reflexivity|]. split; [reflexivity|].
    split; [reflexivity|]. intros [|k]; discriminate.
  - set (u_hat := un +@ k0 +@ K0 @@ (x0 -@ xn)).
    cbn [scan].
    change (rollout_body J ocp x0 (K0, k0, xn, un))
      with (dynamics ocp x0 u_hat, (x0, u_hat)).
    cbv zeta iota beta.
    specialize (IH (dynamics ocp x0 u_hat)).
    destruct (scan (rollout_body J ocp) (dynamics ocp x0 u_hat) inps)
      as [xf outs] eqn:E.
    cbv zeta in IH. cbn [fst snd map length app nth_error] in IH |- *.
    destruct IH as (L1 & L2 & H0 & Hk).
    split; [lia|]. split; [lia|]. split; [reflexivity|].
    intros [|k] K kff x u; cbn [nth_error].
    + intros [= -> -> -> ->]. exists x0. repeat split. exact H0.
    + intros H. apply Hk in H. exact H.
Qed.

Lemma removelast_length {A : Type} (l : list A) :
  length (removelast l) = (length l - 1)%nat.
Proof.
  induction l as [|a [|b l] IH]; simpl in *; try reflexivity. lia.
Qed.

Lemma removelast_nth_error {A : Type} (l : list A) (k : nat) :
  (S k < length l)%nat -> nth_error (removelast l) k = nth_error l k.
Proof.
  revert k. induction l as [|a [|b l] IH]; intros k H; simpl in *; try lia.
  destruct k as [|k]; [reflexivity|]. simpl. apply IH. lia.
Qed.

(** C7: from a nominal trajectory of [N + 1] states and [N] controls and
    [N] gains of each kind, the rollout returns a candidate of the same
    shape with [state_hat[0] = state[0]],
    [control_hat[k] = control[k] + k[k] + K[k] (state_hat[k] - state[k])]
    and [state_hat[k+1] = dynamics(state_hat[k], control_hat[k])]. *)
Theorem nonlin_rollout_feedback (ocp : OCP J) (gain ffgain nominal_states
    nominal_controls : list arr) :
  length gain = length nominal_controls ->
  length ffgain = length nominal_controls ->
  length nominal_states = S (length nominal_controls) ->
  exists new_states new_controls,
    nonlin_rollout J ocp gain ffgain nominal_states nominal_controls
      = Ok (new_states, new_controls) /\
    length new_states = length nominal_states /\
    length new_controls = length nominal_controls /\
    nth_error new_states 0 = nth_error nominal_states 0 /\
    forall k K kff x u,
      nth_error gain k = Some K -> nth_error ffgain k = Some kff ->
      nth_error nominal_states k = Some x ->
      nth_error nominal_controls k = Some u ->
      exists x_hat,
        nth_error new_states k = Some x_hat /\
        nth_error new_controls k = Some (u +@ kff +@ K @@ (x_hat -@ x)) /\
        nth_error new_states (S k) =
          Some (dynamics ocp x_hat (u +@ kff +@ K @@ (x_hat -@ x))).
Proof.
  intros Hg Hf Hs.
  assert (Hx0 : exists x0, hd_error nominal_states = Some x0)
    by (destruct nominal_states; [discriminate | simpl; eauto]).
  destruct Hx0 as [x0 Hx0].
  assert (Hr : length (removelast nominal_states) = length nominal_controls)
    by (rewrite removelast_length; lia).
  destruct (slices4_total gain ffgain (removelast nominal_states)
              nominal_controls) as (inps & Hi & Li & Ni); try lia.
  pose proof (rollout_scan ocp inps x0) as R. cbv zeta in R.
  unfold nonlin_rollout. rewrite Hx0. cbn [of_option bind].
  rewrite Hi. cbn [bind].
  destruct (scan (rollout_body J ocp) x0 inps) as [xf outs] eqn:E.
  cbn [fst snd] in R. destruct R as (L1 & L2 & H0 & Hk).
  do 2 eexists. split; [reflexivity|].
  split; [lia|]. split; [lia|].
  split.
  - rewrite H0. destruct nominal_states; [discriminate | exact (eq_sym Hx0)].
  - intros k K kff x u HK Hkff Hx Hu. apply Hk.
    rewrite Ni, HK, Hkff, Hu.
    rewrite removelast_nth_error, Hx; [reflexivity|].
    assert (k < length nominal_controls)%nat
      by (apply nth_error_Some; congruence).
    lia.
Qed.

(** ** The feasibility check *)

(** C10: the feasibility check evaluates the constraints on the pairs
    [(state[k], control[k])], [k < N], and never on the terminal state: its
    result, and with it the choice between the total cost and [+inf] for a
    candidate, stay the same whatever the terminal state is. *)
Theorem check_feasibility_ignores_terminal (ocp : OCP J) (xs us : list arr)
    (xN xN' : arr) (bp : float) :
  check_feasibility J ocp (xs ++ [xN]) us =
    (cons <- vmap2 (constraints ocp) xs us ;;
     Ok (forallb (fun c => c <=? 0) (flat J cons))) /\
  check_feasibility J ocp (xs ++ [xN']) us =
    check_feasibility J ocp (xs ++ [xN]) us /\
  new_cost_of J ocp bp (xs ++ [xN]) us =
    (feasible <- check_feasibility J ocp (xs ++ [xN']) us ;;
     Ok (if feasible then total_cost ocp (xs ++ [xN]) us bp else infinity)).
Proof.
  unfold new_cost_of, check_feasibility. rewrite !removelast_snoc.
  repeat split.
Qed.

End SolverFacts.

(** ** Code that raises does not run out of fuel *)

Lemma of_option_fuel {A : Type} (o : option A) : of_option o <> OutOfFuel.
Proof. now destruct o. Qed.

Lemma vmap2_fuel {A B C : Type} (f : A -> B -> C) (xs : list A)
    (ys : list B) : vmap2 f xs ys <> OutOfFuel.
Proof.
  revert ys. induction xs as [|x xs IH]; intros [|y ys]; simpl;
    try discriminate.
  specialize (IH ys). now destruct (vmap2 f xs ys).
Qed.

Lemma slices4_fuel {A B C D : Type} (a : list A) (b : list B) (c : list C)
    (d : list D) : slices4 a b c d <> OutOfFuel.
Proof.
  revert b c d. induction a as [|x a IH]; intros [|y b] [|z c] [|w d];
    simpl; try discriminate.
  specialize (IH b c d). now destruct (slices4 a b c d).
Qed.

Lemma jmax_fuel (xs : list float) : jmax xs <> OutOfFuel.
Proof. now destruct xs. Qed.

(** ** The regularisation scalar *)

Lemma pow3_nan_free (y : float) : nan_free y -> nan_free (pow3 y).
Proof.
  intros Hy. unfold pow3.
  destruct (Prim2SF y) as [sy|sy| |sy my ey] eqn:E.
  - unfold nan_free. rewrite !FloatAxioms.mul_spec, E. discriminate.
  - unfold nan_free. rewrite !FloatAxioms.mul_spec, E. discriminate.
  - contradiction.
  - apply mul_nan_free_finite; [now apply mul_self_nan_free|].
    now exists sy, my, ey.
Qed.

Lemma finite_nonzero_nan_free (x : float) : finite_nonzero x -> nan_free x.
Proof. intros (s & m & e & H). unfold nan_free. rewrite H. discriminate. Qed.

Lemma decay_factor_nan_free (g : float) :
  (0 <? g) = true -> nan_free (maximum (1 / 3) (1 - pow3 (2 * g - 1))).
Proof.
  intros Hg. apply ltb_nan_free in Hg. destruct Hg as [_ Hg].
  assert (F1 : finite_nonzero 1) by (do 3 eexists; reflexivity).
  assert (F2 : finite_nonzero 2) by (do 3 eexists; reflexivity).
  apply maximum_nan_free.
  - apply is_nan_false. reflexivity.
  - apply sub_finite_l_nan_free; [exact F1|].
    apply pow3_nan_free. apply sub_finite_r_nan_free; [|exact F1].
    now apply mul_finite_nan_free.
Qed.

(** After the clip the regularisation scalar is in its interval, on the
    decay branch and on the growth branch. *)
Lemma next_rp_in_range (success : bool) (rp0 g reg_inc0 : float) :
  in_range rp0 -> nan_free reg_inc0 ->
  (success = true -> (0 <? g) = true) ->
  in_range (next_rp success rp0 g reg_inc0).
Proof.
  intros Hr Hi Hs. unfold next_rp. apply clip_in_range.
  apply in_range_finite_nonzero in Hr.
  destruct success.
  - apply mul_finite_nan_free; [exact Hr|].
    apply decay_factor_nan_free. now apply Hs.
  - now apply mul_finite_nan_free.
Qed.

Section LoopTheorems.
Variable J : ArrayOps.
Variable AD : Autodiff J.

Abbreviation arr := (ndarray J).

(** ** One inner iteration *)

(** What an inner iteration that returns has computed. *)
Lemma while_inner_loop_inv (ocp : OCP J) (bp : float) (x u : list arr)
    (cost : float) (d : Derivatives J) (reg_inc0 : float)
    (iv out : inner_val J) :
  while_inner_loop J AD ocp bp x u cost d reg_inc0 iv = Ok out ->
  exists b feasible,
    inner_bwd J AD ocp x d (rp iv) = Ok b /\
    nonlin_rollout J ocp (gain b) (ffgain b) x u
      = Ok (temp_x out, temp_u out) /\
    check_feasibility J ocp (temp_x out) (temp_u out) = Ok feasible /\
    let new_cost :=
      if feasible then total_cost ocp (temp_x out) (temp_u out) bp
      else infinity in
    let g := gain_ratio_of new_cost cost (pred_reduction b) in
    new_cost_of J ocp bp (temp_x out) (temp_u out) = Ok new_cost /\
    succesful_minimzation out = (0 <? g) && feasible_bwd_pass b /\
    rp out = next_rp (succesful_minimzation out) (rp iv) g reg_inc0 /\
    r_inc out = (if succesful_minimzation out then 2 else 2 * r_inc iv) /\
    inner_it_counter out = (inner_it_counter iv + 1)%Z.
Proof.
  unfold while_inner_loop.
  destruct (inner_bwd J AD ocp x d (rp iv)) as [b| |]; try discriminate.
  cbn [bind].
  destruct (nonlin_rollout J ocp (gain b) (ffgain b) x u)
    as [[cand_x cand_u]| |] eqn:N; try discriminate.
  cbn [bind].
  destruct (jmax (map abs (flat J (Hu b)))) as [h| |]; try discriminate.
  cbn [bind]. unfold new_cost_of.
  destruct (check_feasibility J ocp cand_x cand_u) as [feasible| |] eqn:F;
    try discriminate.
  cbn [bind]. intros [= <-].
  cbn [temp_x temp_u succesful_minimzation rp r_inc inner_it_counter].
  exists b, feasible. rewrite F. cbn [bind]. now repeat split.
Qed.

Lemma while_inner_loop_fuel (ocp : OCP J) (bp : float) (x u : list arr)
    (cost : float) (d : Derivatives J) (reg_inc0 : float) (iv : inner_val J) :
  while_inner_loop J AD ocp bp x u cost d reg_inc0 iv <> OutOfFuel.
Proof.
  unfold while_inner_loop, inner_bwd, nonlin_rollout, new_cost_of,
    check_feasibility.
  pose proof (of_option_fuel (last_error x)).
  destruct (of_option (last_error x)) as [xl| |]; try easy. cbn [bind].
  pose proof (of_option_fuel (hd_error x)).
  destruct (of_option (hd_error x)) as [x0| |]; try easy. cbn [bind].
  match goal with |- context [slices4 ?a ?b ?c ?e] =>
    pose proof (slices4_fuel a b c e);
    destruct (slices4 a b c e) as [inps| |]; try easy end.
  cbn [bind].
  destruct (scan (rollout_body J ocp) x0 inps) as [xf outs]. cbn [bind].
  match goal with |- context [jmax ?l] =>
    pose proof (jmax_fuel l); destruct (jmax l) as [h| |]; try easy end.
  cbn [bind].
  match goal with |- context [vmap2 ?f ?a ?b] =>
    pose proof (vmap2_fuel f a b);
    destruct (vmap2 f a b) as [cons| |]; try easy end.
Qed.

Lemma while_inner_cond_cap (iv : inner_val J) :
  while_inner_cond J iv = true -> (inner_it_counter iv <= 500)%Z.
Proof.
  unfold while_inner_cond. intros H. apply negb_true_iff in H.
  apply orb_false_iff in H. destruct H as [_ H].
  apply Z.ltb_ge in H. exact H.
Qed.

Lemma while_inner_cond_exit (iv : inner_val J) :
  while_inner_cond J iv = false ->
  succesful_minimzation iv = true \/ (500 < inner_it_counter iv)%Z.
Proof.
  unfold while_inner_cond. intros H. apply negb_false_iff in H.
  apply orb_true_iff in H. destruct H as [H|H]; [now left | right].
  now apply Z.ltb_lt.
Qed.

Lemma while_cond_cap (v : val J) :
  while_cond J v = true -> (iterations v <= 500)%Z.
Proof.
  unfold while_cond. intros H. apply negb_true_iff in H.
  apply orb_false_iff in H. destruct H as [_ H].
  apply Z.ltb_ge in H. exact H.
Qed.

(** ** Termination *)

Lemma inner_loop_steps (k : nat) (ocp : OCP J) (bp : float) (x u : list arr)
    (cost : float) (d : Derivatives J) (reg_inc0 : float) (iv : inner_val J) :
  inner_it_counter iv = 0%Z ->
  match while_steps (501 + k) (while_inner_cond J)
          (while_inner_loop J AD ocp bp x u cost d reg_inc0) iv with
  | Ok (_, n) => (n <= 501)%nat
  | Raised => True
  | OutOfFuel => False
  end.
Proof.
  intros H0.
  pose proof (while_steps_capped (while_inner_cond J)
    (while_inner_loop J AD ocp bp x u cost d reg_inc0)
    (inner_it_counter (J := J)) 500 while_inner_cond_cap) as H.
  specialize (H ltac:(intros s s' Hs; apply while_inner_loop_inv in Hs;
                      destruct Hs as (b & f & Hs); apply Hs)).
  specialize (H (while_inner_loop_fuel ocp bp x u cost d reg_inc0)).
  specialize (H (501 + k)%nat iv ltac:(lia)).
  destruct (while_steps _ _ _ iv) as [[s n]| |]; auto. lia.
Qed.

Lemma while_body_inv (fuel : nat) (ocp : OCP J) (bp : float) (v v' : val J) :
  while_body J AD fuel ocp bp v = Ok v' ->
  exists d inner,
    compute_derivatives J AD ocp (x_nom v) (u_nom v) bp = Ok d /\
    while_loop fuel (while_inner_cond J)
      (while_inner_loop J AD ocp bp (x_nom v) (u_nom v)
         (total_cost ocp (x_nom v) (u_nom v) bp) d (reg_inc v))
      (inner_init J (x_nom v) (u_nom v) (reg_param v) (reg_inc v))
      = Ok inner /\
    x_nom v' = temp_x inner /\ u_nom v' = temp_u inner /\
    iterations v' = (iterations v + 1)%Z /\
    reg_param v' = rp inner /\ reg_inc v' = r_inc inner /\
    Hamiltonian_norm v' = Hu_norm inner.
Proof.
  unfold while_body.
  destruct (compute_derivatives J AD ocp (x_nom v) (u_nom v) bp)
    as [d| |] eqn:D; try discriminate.
  cbn [bind].
  destruct (while_loop fuel _ _ _) as [inner| |] eqn:E; try discriminate.
  cbn [bind]. intros [= <-]. exists d, inner.
  cbn [x_nom u_nom iterations reg_param reg_inc Hamiltonian_norm].
  now repeat split.
Qed.

Lemma while_body_fuel (k : nat) (ocp : OCP J) (bp : float) (v : val J) :
  while_body J AD (501 + k) ocp bp v <> OutOfFuel.
Proof.
  unfold while_body, compute_derivatives.
  match goal with |- context [vmap2 ?f ?a ?b] =>
    pose proof (vmap2_fuel f a b);
    destruct (vmap2 f a b) as [d| |]; try easy end.
  cbn [bind].
  match goal with |- context [while_loop ?f ?c ?b ?s] =>
    destruct (while_loop f c b s) as [inner| |] eqn:E; try easy end.
  apply while_loop_not_out_of_fuel in E.
  pose proof (inner_loop_steps k ocp bp (x_nom v) (u_nom v)
    (total_cost ocp (x_nom v) (u_nom v) bp) d (reg_inc v)
    (inner_init J (x_nom v) (u_nom v) (reg_param v) (reg_inc v))
    eq_refl) as Hsteps.
  rewrite E in Hsteps. contradiction.
Qed.

Lemma outer_loop_steps (k : nat) (ocp : OCP J) (bp : float) (v : val J) :
  iterations v = 0%Z ->
  match while_steps (501 + k) (while_cond J)
          (while_body J AD (501 + k) ocp bp) v with
  | Ok (_, n) => (n <= 501)%nat
  | Raised => True
  | OutOfFuel => False
  end.
Proof.
  intros H0.
  pose proof (while_steps_capped (while_cond J)
    (while_body J AD (501 + k) ocp bp)
    (iterations (J := J)) 500 while_cond_cap) as H.
  specialize (H ltac:(intros s s' Hs; apply while_body_inv in Hs;
                      destruct Hs as (d & i & Hs); apply Hs)).
  specialize (H (while_body_fuel k ocp bp)).
  specialize (H (501 + k)%nat v ltac:(lia)).
  destruct (while_steps _ _ _ v) as [[s n]| |]; auto. lia.
Qed.

(** C6, as the code has it: the inner loop stops once its counter exceeds
    500, so it executes at most 501 iterations when no candidate is
    accepted, and the outer loop at most 501 iterations when the residual
    stays at or above 1e-4; with fuel for 501 iterations neither loop, nor
    [ddp], runs out of fuel. *)
Theorem loops_stop_within_501 (k : nat) (ocp : OCP J) (bp : float) :
  (forall x u cost d reg_inc0 rp0 r_inc0,
     match while_steps (501 + k) (while_inner_cond J)
             (while_inner_loop J AD ocp bp x u cost d reg_inc0)
             (inner_init J x u rp0 r_inc0) with
     | Ok (_, n) => (n <= 501)%nat
     | Raised => True
     | OutOfFuel => False
     end) /\
  (forall states controls,
     match while_steps (501 + k) (while_cond J)
             (while_body J AD (501 + k) ocp bp)
             (ddp_init J states controls) with
     | Ok (_, n) => (n <= 501)%nat
     | Raised => True
     | OutOfFuel => False
     end) /\
  (forall controls initial_state,
     ddp J AD (501 + k) ocp controls initial_state bp <> OutOfFuel).
Proof.
  split; [|split].
  - intros. now apply inner_loop_steps.
  - intros. now apply outer_loop_steps.
  - intros controls x0. unfold ddp.
    match goal with |- context [while_loop ?f ?c ?b ?s] =>
      destruct (while_loop f c b s) as [v| |] eqn:E; try easy end.
    apply while_loop_not_out_of_fuel in E.
    pose proof (outer_loop_steps k ocp bp
      (ddp_init J (rollout J (dynamics ocp) controls x0) controls) eq_refl)
      as Hsteps.
    rewrite E in Hsteps. contradiction.
Qed.

End LoopTheorems.

Section AcceptanceTheorems.
Variable J : ArrayOps.
Variable AD : Autodiff J.

Abbreviation arr := (ndarray J).

(** ** The regularisation scalar stays in its interval *)

Lemma inner_step_range (ocp : OCP J) (bp : float) (x u : list arr)
    (cost : float) (d : Derivatives J) (reg_inc0 : float)
    (iv out : inner_val J) :
  nan_free reg_inc0 ->
  in_range (rp iv) /\ nan_free (r_inc iv) ->
  while_inner_loop J AD ocp bp x u cost d reg_inc0 iv = Ok out ->
  in_range (rp out) /\ nan_free (r_inc out).
Proof.
  intros Hi [Hr Hn] H. apply while_inner_loop_inv in H.
  destruct H as (b & feasible & _ & _ & _ & H). cbv zeta in H.
  destruct H as (_ & Hs & Hrp & Hri & _).
  split.
  - rewrite Hrp. apply next_rp_in_range; auto.
    rewrite Hs. intros E. apply andb_true_iff in E. apply E.
  - rewrite Hri. destruct (succesful_minimzation out).
    + apply is_nan_false. reflexivity.
    + apply mul_finite_nan_free; [|exact Hn]. do 3 eexists. reflexivity.
Qed.

Lemma inner_reachable_range (ocp : OCP J) (bp : float) (x u : list arr)
    (cost : float) (d : Derivatives J) (reg_inc0 : float)
    (i0 iv : inner_val J) :
  nan_free reg_inc0 ->
  in_range (rp i0) /\ nan_free (r_inc i0) ->
  reachable (while_inner_cond J)
    (while_inner_loop J AD ocp bp x u cost d reg_inc0) i0 iv ->
  in_range (rp iv) /\ nan_free (r_inc iv).
Proof.
  intros Hi H0 Hr.
  induction Hr as [|s s' _ IH _ Hb]; [exact H0|].
  eapply inner_step_range; eassumption.
Qed.

Lemma outer_reachable_range (fuel : nat) (ocp : OCP J) (bp : float)
    (states controls : list arr) (v : val J) :
  reachable (while_cond J) (while_body J AD fuel ocp bp)
    (ddp_init J states controls) v ->
  in_range (reg_param v) /\ nan_free (reg_inc v).
Proof.
  intros Hv. induction Hv as [|s s' _ [Hr Hn] _ Hb].
  - split; [split; reflexivity | apply is_nan_false; reflexivity].
  - apply while_body_inv in Hb.
    destruct Hb as (d & inner & _ & Hl & _ & _ & _ & -> & -> & _).
    apply while_loop_reachable in Hl. destruct Hl as [Hl _].
    eapply inner_reachable_range; [exact Hn| |exact Hl].
    split; assumption.
Qed.

(** C9: in every run of [ddp] the regularisation scalar carried by the
    outer loop, and the one carried by the inner loop after each of its
    updates, on the decay branch and on the growth branch alike, lies in
    [1e-16, 1e16]. *)
Theorem regularisation_bounded (fuel : nat) (ocp : OCP J)
    (controls : list arr) (initial_state : arr) (bp : float) (v : val J) :
  reachable (while_cond J) (while_body J AD fuel ocp bp)
    (ddp_init J (rollout J (dynamics ocp) controls initial_state) controls)
    v ->
  in_range (reg_param v) /\
  forall d iv,
    compute_derivatives J AD ocp (x_nom v) (u_nom v) bp = Ok d ->
    reachable (while_inner_cond J)
      (while_inner_loop J AD ocp bp (x_nom v) (u_nom v)
         (total_cost ocp (x_nom v) (u_nom v) bp) d (reg_inc v))
      (inner_init J (x_nom v) (u_nom v) (reg_param v) (reg_inc v)) iv ->
    in_range (rp iv).
Proof.
  intros Hv. apply outer_reachable_range in Hv. destruct Hv as [Hr Hn].
  split; [exact Hr|].
  intros d iv _ Hiv.
  eapply inner_reachable_range; [exact Hn| |exact Hiv].
  split; assumption.
Qed.

(** ** The acceptance rule *)

(** What the rule does with a candidate that violates a constraint: it is
    given the cost [+inf], and then accepted exactly when the backward pass
    was positive definite throughout, the nominal cost is below [+inf] and
    the predicted reduction is [+0] or positive and finite; a negative
    predicted reduction rejects it. *)
Lemma infeasible_candidate_gate (ocp : OCP J) (bp : float)
    (x u : list arr) (cost : float) (d : Derivatives J) (reg_inc0 : float)
    (iv out : inner_val J) (b : bwd_result J) :
  while_inner_loop J AD ocp bp x u cost d reg_inc0 iv = Ok out ->
  inner_bwd J AD ocp x d (rp iv) = Ok b ->
  check_feasibility J ocp (temp_x out) (temp_u out) = Ok false ->
  new_cost_of J ocp bp (temp_x out) (temp_u out) = Ok infinity /\
  (succesful_minimzation out = true <->
   feasible_bwd_pass b = true /\ (cost <? infinity) = true /\
   nonneg_finite (pred_reduction b) = true) /\
  ((pred_reduction b <? 0) = true -> succesful_minimzation out = false).
Proof.
  intros H Hb Hf. apply while_inner_loop_inv in H.
  destruct H as (b' & feasible & Hb' & _ & Hf' & H). cbv zeta in H.
  destruct H as (Hc & Hs & _).
  assert (b' = b) by congruence. subst b'.
  assert (feasible = false) by congruence. subst feasible.
  split; [exact Hc|].
  assert (E : succesful_minimzation out = true <->
              feasible_bwd_pass b = true /\ (cost <? infinity) = true /\
              nonneg_finite (pred_reduction b) = true).
  { rewrite Hs, andb_true_iff, inf_gain_positive. tauto. }
  split; [exact E|].
  intros Hp. apply neg_pred_not_nonneg_finite in Hp.
  destruct (succesful_minimzation out); [|reflexivity].
  destruct E as [E _]. specialize (E eq_refl). destruct E as (_ & _ & E).
  congruence.
Qed.

(** A candidate accepted on a negative predicted reduction is feasible and
    its total cost at the current barrier parameter is strictly below the
    total cost of the nominal trajectory. *)
Lemma accepted_step_descends (ocp : OCP J) (bp : float) (x u : list arr)
    (d : Derivatives J) (reg_inc0 : float) (iv out : inner_val J)
    (b : bwd_result J) :
  while_inner_loop J AD ocp bp x u (total_cost ocp x u bp) d reg_inc0 iv
    = Ok out ->
  inner_bwd J AD ocp x d (rp iv) = Ok b ->
  succesful_minimzation out = true ->
  (pred_reduction b <? 0) = true ->
  check_feasibility J ocp (temp_x out) (temp_u out) = Ok true /\
  (total_cost ocp (temp_x out) (temp_u out) bp <? total_cost ocp x u bp)
    = true.
Proof.
  intros H Hb Hacc Hp. apply while_inner_loop_inv in H.
  destruct H as (b' & feasible & Hb' & _ & Hf & H). cbv zeta in H.
  destruct H as (_ & Hs & _).
  assert (b' = b) by congruence. subst b'.
  rewrite Hacc in Hs. symmetry in Hs. apply andb_true_iff in Hs.
  destruct Hs as [Hg _].
  apply gain_positive_descent in Hg; [|exact Hp].
  destruct feasible.
  - split; assumption.
  - exfalso. rewrite FloatAxioms.ltb_spec in Hg.
    change (Prim2SF infinity) with (S754_infinity false) in Hg.
    unfold SFltb in Hg.
    destruct (Prim2SF (total_cost ocp x u bp)) as [s|[]| |s m e];
      discriminate.
Qed.

(** A feasibility fact shared by the loop theorems: an accepted candidate
    with a negative predicted reduction satisfies the constraints. *)
Lemma accepted_negative_feasible (ocp : OCP J) (bp : float) (x u : list arr)
    (cost : float) (d : Derivatives J) (reg_inc0 : float)
    (iv out : inner_val J) (b : bwd_result J) :
  while_inner_loop J AD ocp bp x u cost d reg_inc0 iv = Ok out ->
  inner_bwd J AD ocp x d (rp iv) = Ok b ->
  succesful_minimzation out = true ->
  (pred_reduction b <? 0) = true ->
  check_feasibility J ocp (temp_x out) (temp_u out) = Ok true.
Proof.
  intros H Hb Hacc Hp. apply while_inner_loop_inv in H.
  destruct H as (b' & feasible & Hb' & _ & Hf & H). cbv zeta in H.
  destruct H as (_ & Hs & _).
  assert (b' = b) by congruence. subst b'.
  destruct feasible; [exact Hf|]. exfalso.
  rewrite Hacc in Hs. symmetry in Hs. apply andb_true_iff in Hs.
  destruct Hs as [Hg _]. apply inf_gain_positive in Hg.
  destruct Hg as [_ Hg]. apply neg_pred_not_nonneg_finite in Hp. congruence.
Qed.

(** C2, as the code has it: the trajectory [ddp] returns is the candidate
    of the last iteration of the last inner loop.  The outer loop returns
    the state [v'] that its last iteration makes of [v]; the inner loop of
    that iteration returns [out], which its last iteration makes of [iv];
    the returned trajectory is the candidate [out] holds.  That inner loop
    ended on an acceptance or on its counter exceeding 500, and the
    trajectory satisfies the constraints at every stage when it was
    accepted on a negative predicted reduction. *)
Theorem ddp_returns_last_candidate (fuel : nat) (ocp : OCP J)
    (controls : list arr) (initial_state : arr) (bp : float)
    (xs us : list arr) (n : Z) :
  ddp J AD fuel ocp controls initial_state bp = Ok (xs, us, n) ->
  let init :=
    ddp_init J (rollout J (dynamics ocp) controls initial_state) controls in
  exists v v' d iv out b,
    let inner_body :=
      while_inner_loop J AD ocp bp (x_nom v) (u_nom v)
        (total_cost ocp (x_nom v) (u_nom v) bp) d (reg_inc v) in
    let inner_start :=
      inner_init J (x_nom v) (u_nom v) (reg_param v) (reg_inc v) in
    (* the last outer iteration *)
    while_loop fuel (while_cond J) (while_body J AD fuel ocp bp) init
      = Ok v' /\
    reachable (while_cond J) (while_body J AD fuel ocp bp) init v /\
    while_cond J v = true /\
    while_body J AD fuel ocp bp v = Ok v' /\
    while_cond J v' = false /\
    x_nom v' = xs /\ u_nom v' = us /\ iterations v' = n /\
    (* the last iteration of its inner loop *)
    compute_derivatives J AD ocp (x_nom v) (u_nom v) bp = Ok d /\
    while_loop fuel (while_inner_cond J) inner_body inner_start = Ok out /\
    reachable (while_inner_cond J) inner_body inner_start iv /\
    while_inner_cond J iv = true /\
    inner_body iv = Ok out /\
    while_inner_cond J out = false /\
    inner_bwd J AD ocp (x_nom v) d (rp iv) = Ok b /\
    (* what is returned *)
    xs = temp_x out /\ us = temp_u out /\
    (succesful_minimzation out = true \/ (500 < inner_it_counter out)%Z) /\
    (succesful_minimzation out = true ->
     (pred_reduction b <? 0) = true ->
     check_feasibility J ocp xs us = Ok true).
Proof.
  intros H init. unfold ddp in H. fold init in H.
  destruct (while_loop fuel _ _ init) as [vf| |] eqn:E; try discriminate.
  cbn [bind] in H. injection H as <- <- <-.
  pose proof E as E'.
  apply while_loop_last_step in E'; [|reflexivity].
  destruct E' as (v & Hv & Hc & Hb & Hc').
  pose proof Hb as Hb'. apply while_body_inv in Hb'.
  destruct Hb' as (d & inner & Hd & Hl & Hx & Hu & _).
  pose proof Hl as Hl'.
  apply while_loop_last_step in Hl'; [|reflexivity].
  destruct Hl' as (iv & Hiv & Hic & Hstep & Hexit).
  pose proof Hstep as Hinv. apply while_inner_loop_inv in Hinv.
  destruct Hinv as (b & feasible & Hbwd & _).
  exists v, vf, d, iv, inner, b. cbv zeta.
  repeat (split; [assumption || reflexivity|]).
  split; [now apply while_inner_cond_exit|].
  intros Hacc Hp. rewrite Hx, Hu.
  eapply accepted_negative_feasible; eassumption.
Qed.

(** ** The continuation *)

Lemma ip_while_steps_step (f0 f : nat) (ocp : OCP J) (initial_state : arr)
    (u : list arr) (bp : float) (t : Z) :
  (1e-4 <? bp) = true ->
  while_steps (S f) (ip_while_cond J)
    (ip_while_body J AD f0 ocp initial_state) (u, bp, t) =
  ('(_, u', n) <- ddp J AD f0 ocp u initial_state bp ;;
   '(s, m) <- while_steps f (ip_while_cond J)
                (ip_while_body J AD f0 ocp initial_state)
                (u', bp / 5, (t + n)%Z) ;;
   Ok (s, S m)).
Proof.
  intros H. cbn [while_steps].
  change (ip_while_cond J (u, bp, t)) with (1e-4 <? bp). rewrite H.
  unfold ip_while_body at 1.
  now destruct (ddp J AD f0 ocp u initial_state bp) as [[[x' u'] n]| |].
Qed.

Lemma ip_while_steps_exit (f0 f : nat) (ocp : OCP J) (initial_state : arr)
    (u : list arr) (bp : float) (t : Z) :
  (1e-4 <? bp) = false ->
  while_steps f (ip_while_cond J)
    (ip_while_body J AD f0 ocp initial_state) (u, bp, t) = Ok ((u, bp, t), O).
Proof.
  intros H. destruct f; cbn [while_steps];
    change (ip_while_cond J (u, bp, t)) with (1e-4 <? bp); now rewrite H.
Qed.

Lemma ip_five_steps (f0 k : nat) (ocp : OCP J) (controls : list arr)
    (initial_state : arr) :
  let run u bp := ddp J AD f0 ocp u initial_state bp in
  while_steps (5 + k) (ip_while_cond J)
      (ip_while_body J AD f0 ocp initial_state) (controls, 0.1, 0%Z) =
    ('(_, u1, n1) <- run controls 0.1 ;;
     '(_, u2, n2) <- run u1 (0.1 / 5) ;;
     '(_, u3, n3) <- run u2 (0.1 / 5 / 5) ;;
     '(_, u4, n4) <- run u3 (0.1 / 5 / 5 / 5) ;;
     '(_, u5, n5) <- run u4 (0.1 / 5 / 5 / 5 / 5) ;;
     Ok ((u5, 0.1 / 5 / 5 / 5 / 5 / 5, (0 + n1 + n2 + n3 + n4 + n5)%Z),
         5%nat)).
Proof.
  intros run. cbn [Nat.add].
  rewrite ip_while_steps_step by reflexivity. fold (run controls 0.1).
  destruct (run controls 0.1) as [[[x1 u1] n1]| |]; try reflexivity.
  cbn [bind].
  rewrite ip_while_steps_step by reflexivity. fold (run u1 (0.1 / 5)).
  destruct (run u1 (0.1 / 5)) as [[[x2 u2] n2]| |]; try reflexivity.
  cbn [bind].
  rewrite ip_while_steps_step by reflexivity. fold (run u2 (0.1 / 5 / 5)).
  destruct (run u2 (0.1 / 5 / 5)) as [[[x3 u3] n3]| |]; try reflexivity.
  cbn [bind].
  rewrite ip_while_steps_step by reflexivity.
  fold (run u3 (0.1 / 5 / 5 / 5)).
  destruct (run u3 (0.1 / 5 / 5 / 5)) as [[[x4 u4] n4]| |]; try reflexivity.
  cbn [bind].
  rewrite ip_while_steps_step by reflexivity.
  fold (run u4 (0.1 / 5 / 5 / 5 / 5)).
  destruct (run u4 (0.1 / 5 / 5 / 5 / 5)) as [[[x5 u5] n5]| |];
    try reflexivity.
  cbn [bind].
  rewrite ip_while_steps_exit by reflexivity. reflexivity.
Qed.

(** C3: the continuation starts from the barrier parameter 0.1, runs the
    Newton loop at the current parameter from the controls of the previous
    run, divides the parameter by 5, adds up the Newton iterations and stops
    at the first parameter not above 1e-4: five runs, as many as
    ceil(log5(0.1 / 1e-4)), after which it returns the last controls and the
    total count. *)
Theorem interior_point_five_newton_loops (k : nat) (ocp : OCP J)
    (controls : list arr) (initial_state : arr) :
  let fuel := (5 + k)%nat in
  let run u bp := ddp J AD fuel ocp u initial_state bp in
  interior_point_ddp J AD fuel ocp controls initial_state =
    ('(_, u1, n1) <- run controls 0.1 ;;
     '(_, u2, n2) <- run u1 (0.1 / 5) ;;
     '(_, u3, n3) <- run u2 (0.1 / 5 / 5) ;;
     '(_, u4, n4) <- run u3 (0.1 / 5 / 5 / 5) ;;
     '(_, u5, n5) <- run u4 (0.1 / 5 / 5 / 5 / 5) ;;
     Ok (u5, (0 + n1 + n2 + n3 + n4 + n5)%Z)) /\
  while_steps fuel (ip_while_cond J)
      (ip_while_body J AD fuel ocp initial_state) (controls, 0.1, 0%Z) =
    ('(_, u1, n1) <- run controls 0.1 ;;
     '(_, u2, n2) <- run u1 (0.1 / 5) ;;
     '(_, u3, n3) <- run u2 (0.1 / 5 / 5) ;;
     '(_, u4, n4) <- run u3 (0.1 / 5 / 5 / 5) ;;
     '(_, u5, n5) <- run u4 (0.1 / 5 / 5 / 5 / 5) ;;
     Ok ((u5, 0.1 / 5 / 5 / 5 / 5 / 5, (0 + n1 + n2 + n3 + n4 + n5)%Z),
         5%nat)) /\
  (1e-4 <? 0.1 / 5 / 5 / 5 / 5) = true /\
  (0.1 / 5 / 5 / 5 / 5 / 5 <=? 1e-4) = true /\
  (5 ^ 4 < 1000 <= 5 ^ 5)%Z.
Proof.
  intros fuel run.
  pose proof (ip_five_steps fuel k ocp controls initial_state) as E.
  cbv zeta in E. fold run in E.
  split; [|split; [exact E|repeat split; lia]].
  unfold interior_point_ddp. rewrite while_loop_steps.
  change (5 + k)%nat with fuel in E. rewrite E.
  destruct (run controls 0.1) as [[[x1 u1] n1]| |]; try reflexivity.
  cbn [bind].
  destruct (run u1 (0.1 / 5)) as [[[x2 u2] n2]| |]; try reflexivity.
  cbn [bind].
  destruct (run u2 (0.1 / 5 / 5)) as [[[x3 u3] n3]| |]; try reflexivity.
  cbn [bind].
  destruct (run u3 (0.1 / 5 / 5 / 5)) as [[[x4 u4] n4]| |]; try reflexivity.
  cbn [bind].
  destruct (run u4 (0.1 / 5 / 5 / 5 / 5)) as [[[x5 u5] n5]| |];
    reflexivity.
Qed.

End AcceptanceTheorems.

(** ** Runs of the examples *)

Example box_seed_run :
  ddp scalar_ops box_ad 600 box_ocp [0.5] 0 0.1
  = Ok ([0; 0.84514364494220939], [0.84514364494220939], 7%Z).
Proof. vm_compute. reflexivity. Qed.

Example lin_first_step :
  exists out,
    while_inner_loop scalar_ops lin_ad lin_ocp 0.1 [0; 0] [0]
      (total_cost lin_ocp [0; 0] [0] 0.1)
      (derivatives_of lin_ad lin_ocp [0; 0] [0] 0.1) 2
      (inner_init scalar_ops [0; 0] [0] 1 2) = Ok out /\
    temp_u out = [-1] /\ succesful_minimzation out = true.
Proof. eexists. split; [vm_compute; reflexivity|]. split; reflexivity. Qed.

(** ** The theorems at the examples *)

(** C8 at the first stage of the bounded problem, along the controls
    [0.5; 0.5]. *)
Lemma bwd_pass_regularisation_witness :
  exists s,
    nth_error (derivatives_of box_ad box_ocp [0; 0.5; 1] [0.5; 0.5] 0.1) 0
      = Some s /\
    exists out,
      nth_error
        (snd (bwd_scan scalar_ops box_ad box_final 1
                (derivatives_of box_ad box_ocp [0; 0.5; 1] [0.5; 0.5] 0.1) 1))
        0 = Some out /\
      out_pos_def out = true.
Proof.
  eexists. split; [vm_compute; reflexivity|].
  destruct (bwd_pass_regularisation scalar_ops box_ad box_final 1
              (derivatives_of box_ad box_ocp [0; 0.5; 1] [0.5; 0.5] 0.1) 1 0
              _ eq_refl) as (out & Hn & Hp & _).
  exists out. split; [exact Hn|]. rewrite Hp. vm_compute. reflexivity.
Defined.

(** C7 at a horizon of two stages. *)
Lemma nonlin_rollout_feedback_witness :
  (length [0.5; 0.25] = length [1; 1] /\
   length [2; -1] = length [1; 1] /\
   length [0; 1; 2] = S (length [1; 1])) /\
  exists new_states new_controls,
    nonlin_rollout scalar_ops lin_ocp [0.5; 0.25] [2; -1] [0; 1; 2] [1; 1]
      = Ok (new_states, new_controls) /\
    length new_states = 3%nat /\ length new_controls = 2%nat.
Proof.
  split; [repeat split|].
  destruct (nonlin_rollout_feedback scalar_ops lin_ocp
              [0.5; 0.25] [2; -1] [0; 1; 2] [1; 1] eq_refl eq_refl eq_refl)
    as (xs & us & H & L1 & L2 & _).
  exists xs, us. repeat split; assumption.
Defined.

(** C9 after the first outer iteration of the bounded problem. *)
Lemma regularisation_bounded_witness :
  exists v,
    reachable (while_cond scalar_ops)
      (while_body scalar_ops box_ad 600 box_ocp 0.1)
      (ddp_init scalar_ops
         (rollout scalar_ops (dynamics box_ocp) [0.5] 0) [0.5]) v /\
    iterations v = 1%Z /\ in_range (reg_param v).
Proof.
  eexists. split; [|split].
  - eapply reach_step; [apply reach_init | reflexivity|].
    vm_compute. reflexivity.
  - reflexivity.
  - apply (regularisation_bounded scalar_ops box_ad 600 box_ocp [0.5] 0 0.1).
    eapply reach_step; [apply reach_init | reflexivity|].
    vm_compute. reflexivity.
Defined.

(** The gate at the first inner iteration of the bounded problem from zero
    controls: the candidate [u = 2.3] violates [u^2 <= 1] and is rejected. *)
Lemma infeasible_candidate_gate_witness :
  exists out b,
    (while_inner_loop scalar_ops box_ad box_ocp 0.1 [0; 0] [0]
       (total_cost box_ocp [0; 0] [0] 0.1)
       (derivatives_of box_ad box_ocp [0; 0] [0] 0.1) 2
       (inner_init scalar_ops [0; 0] [0] 1 2) = Ok out /\
     inner_bwd scalar_ops box_ad box_ocp [0; 0]
       (derivatives_of box_ad box_ocp [0; 0] [0] 0.1) 1 = Ok b /\
     check_feasibility scalar_ops box_ocp (temp_x out) (temp_u out)
       = Ok false) /\
    new_cost_of scalar_ops box_ocp 0.1 (temp_x out) (temp_u out)
      = Ok infinity /\
    succesful_minimzation out = false.
Proof.
  do 2 eexists.
  assert (H1 : while_inner_loop scalar_ops box_ad box_ocp 0.1 [0; 0] [0]
       (total_cost box_ocp [0; 0] [0] 0.1)
       (derivatives_of box_ad box_ocp [0; 0] [0] 0.1) 2
       (inner_init scalar_ops [0; 0] [0] 1 2) = Ok _)
    by (vm_compute; reflexivity).
  assert (H2 : inner_bwd scalar_ops box_ad box_ocp [0; 0]
       (derivatives_of box_ad box_ocp [0; 0] [0] 0.1) 1 = Ok _)
    by (vm_compute; reflexivity).
  split; [split; [exact H1 | split; [exact H2 | reflexivity]]|].
  destruct (infeasible_candidate_gate scalar_ops box_ad box_ocp 0.1 _ _ _ _ _
              _ _ _ H1 H2 eq_refl) as (Hc & _ & Hr).
  split; [exact Hc | apply Hr; reflexivity].
Defined.

(** The descent at the first inner iteration of the linear problem. *)
Lemma accepted_step_descends_witness :
  exists out b,
    (while_inner_loop scalar_ops lin_ad lin_ocp 0.1 [0; 0] [0]
       (total_cost lin_ocp [0; 0] [0] 0.1)
       (derivatives_of lin_ad lin_ocp [0; 0] [0] 0.1) 2
       (inner_init scalar_ops [0; 0] [0] 1 2) = Ok out /\
     inner_bwd scalar_ops lin_ad lin_ocp [0; 0]
       (derivatives_of lin_ad lin_ocp [0; 0] [0] 0.1) 1 = Ok b /\
     succesful_minimzation out = true /\
     (pred_reduction b <? 0) = true) /\
    check_feasibility scalar_ops lin_ocp (temp_x out) (temp_u out)
      = Ok true /\
    (total_cost lin_ocp (temp_x out) (temp_u out) 0.1
       <? total_cost lin_ocp [0; 0] [0] 0.1) = true.
Proof.
  do 2 eexists.
  assert (H1 : while_inner_loop scalar_ops lin_ad lin_ocp 0.1 [0; 0] [0]
       (total_cost lin_ocp [0; 0] [0] 0.1)
       (derivatives_of lin_ad lin_ocp [0; 0] [0] 0.1) 2
       (inner_init scalar_ops [0; 0] [0] 1 2) = Ok _)
    by (vm_compute; reflexivity).
  assert (H2 : inner_bwd scalar_ops lin_ad lin_ocp [0; 0]
       (derivatives_of lin_ad lin_ocp [0; 0] [0] 0.1) 1 = Ok _)
    by (vm_compute; reflexivity).
  split; [split; [exact H1 | split; [exact H2 | split; reflexivity]]|].
  exact (accepted_step_descends scalar_ops lin_ad lin_ocp 0.1 _ _ _ _ _ _ _
           H1 H2 eq_refl eq_refl).
Defined.

(** C2 at the bounded problem from the controls [0.5]: the run takes 7
    outer iterations, ends on an acceptance and returns the candidate of
    the last iteration of its last inner loop. *)
Lemma ddp_returns_last_candidate_witness :
  exists xs us n,
    ddp scalar_ops box_ad 600 box_ocp [0.5] 0 0.1 = Ok (xs, us, n) /\
    exists v' out,
      while_loop 600 (while_cond scalar_ops)
        (while_body scalar_ops box_ad 600 box_ocp 0.1)
        (ddp_init scalar_ops
           (rollout scalar_ops (dynamics box_ocp) [0.5] 0) [0.5]) = Ok v' /\
      x_nom v' = xs /\ u_nom v' = us /\ iterations v' = n /\
      while_inner_cond scalar_ops out = false /\
      xs = temp_x out /\ us = temp_u out /\
      (succesful_minimzation out = true \/ (500 < inner_it_counter out)%Z).
Proof.
  do 3 eexists.
  assert (H : ddp scalar_ops box_ad 600 box_ocp [0.5] 0 0.1 = Ok (_, _, _))
    by (vm_compute; reflexivity).
  split; [exact H|].
  pose proof (ddp_returns_last_candidate scalar_ops box_ad 600 box_ocp [0.5] 0
                0.1 _ _ _ H) as W.
  cbv zeta in W. destruct W as (v & v' & d & iv & out & b & W).
  destruct W as (Hl & _ & _ & _ & _ & Hxn & Hun & Hn & _ & _ & _ & _ & _
                 & Hex & _ & Hx & Hu & He & _).
  exists v', out. repeat split; assumption.
Defined.

(** ** Where the claims fail *)

(** C2 fails: from the feasible controls [u = 0] of the bounded problem the
    Newton step [u = 2.3] violates [u^2 <= 1]; the control gradient of the
    cost vanishes at the seed, so the regularisation adds nothing, every
    inner iteration rejects the same candidate, the inner loop gives it
    back when its counter passes 500, and [ddp] returns it. *)
Lemma ddp_returns_infeasible :
  check_feasibility scalar_ops box_ocp
    (rollout scalar_ops (dynamics box_ocp) [0] 0) [0] = Ok true /\
  exists xs us n,
    ddp scalar_ops box_ad 600 box_ocp [0] 0 0.1 = Ok (xs, us, n) /\
    check_feasibility scalar_ops box_ocp xs us = Ok false.
Proof.
  split; [reflexivity|].
  do 3 eexists. split; [vm_compute; reflexivity|]. reflexivity.
Qed.

(** C6 fails: the inner loop of the first outer iteration of the bounded
    problem from zero controls accepts nothing and executes 501
    iterations; the outer loop of the linear problem, whose residual stays
    1, executes 501 iterations. *)
Lemma loops_execute_501 :
  (exists s,
     while_steps 600 (while_inner_cond scalar_ops)
       (while_inner_loop scalar_ops box_ad box_ocp 0.1 [0; 0] [0]
          (total_cost box_ocp [0; 0] [0] 0.1)
          (derivatives_of box_ad box_ocp [0; 0] [0] 0.1) 2)
       (inner_init scalar_ops [0; 0] [0] 1 2) = Ok (s, 501%nat) /\
     succesful_minimzation s = false) /\
  (exists v,
     while_steps 600 (while_cond scalar_ops)
       (while_body scalar_ops lin_ad 600 lin_ocp 0.1)
       (ddp_init scalar_ops (rollout scalar_ops (dynamics lin_ocp) [0] 0)
          [0]) = Ok (v, 501%nat) /\
     (Hamiltonian_norm v <? 1e-4) = false) /\
  (500 < 501)%nat.
Proof.
  split; [|split; [|lia]].
  - eexists. split; [vm_compute; reflexivity | reflexivity].
  - eexists. split; [vm_compute; reflexivity | reflexivity].
Qed.



(** * Further properties of the solver *)

(** ** More facts on the mapped and scanned lists *)

Lemma vmap2_raised_iff {A B C : Type} (f : A -> B -> C) (xs : list A)
    (ys : list B) : vmap2 f xs ys = Raised <-> length xs <> length ys.
Proof.
  revert ys. induction xs as [|x xs IH]; intros [|y ys]; simpl.
  - split; [discriminate | intros H; now elim H].
  - split; [intros _; discriminate | reflexivity].
  - split; [intros _; discriminate | reflexivity].
  - specialize (IH ys).
    destruct (vmap2 f xs ys) as [r| |] eqn:E0; simpl.
    + split; [discriminate|]. intros H. exfalso.
      assert (E : length xs <> length ys) by lia.
      apply IH in E. discriminate.
    + split; [|reflexivity]. intros _.
      assert (E : length xs <> length ys) by now apply IH. lia.
    + exfalso. now apply (vmap2_fuel f xs ys).
Qed.

Lemma vmap2_nth {A B C : Type} (f : A -> B -> C) (xs : list A)
    (ys : list B) (r : list C) :
  vmap2 f xs ys = Ok r ->
  forall k x y, nth_error xs k = Some x -> nth_error ys k = Some y ->
    nth_error r k = Some (f x y).
Proof.
  revert ys r. induction xs as [|x xs IH]; intros [|y ys] r; simpl;
    try discriminate.
  - intros _ [|k]; discriminate.
  - destruct (vmap2 f xs ys) as [r'| |] eqn:E; simpl; try discriminate.
    intros [= <-] [|k] a b; simpl.
    + now intros [= <-] [= <-].
    + now apply IH.
Qed.

Lemma vmap2_total {A B C : Type} (f : A -> B -> C) (xs : list A)
    (ys : list B) :
  length xs = length ys -> exists r, vmap2 f xs ys = Ok r.
Proof.
  intros H. destruct (vmap2 f xs ys) as [r| |] eqn:E; eauto.
  - apply vmap2_raised_iff in E. contradiction.
  - now apply vmap2_fuel in E.
Qed.

Lemma vmap2_map_ext {A B C D : Type} (f g : A -> B -> C) (p : C -> D)
    (xs : list A) (ys : list B) (r s : list C) :
  (forall x y, p (f x y) = p (g x y)) ->
  vmap2 f xs ys = Ok r -> vmap2 g xs ys = Ok s -> map p r = map p s.
Proof.
  intros H. revert ys r s.
  induction xs as [|x xs IH]; intros [|y ys] r s; simpl; try discriminate.
  - now intros [= <-] [= <-].
  - destruct (vmap2 f xs ys) as [r'| |] eqn:E1; simpl; try discriminate.
    destruct (vmap2 g xs ys) as [s'| |] eqn:E2; simpl; try discriminate.
    intros [= <-] [= <-]. simpl. now rewrite H, (IH _ _ _ E1 E2).
Qed.

Lemma slices4_length {A B C D : Type} (a : list A) (b : list B) (c : list C)
    (d : list D) (l : list (A * B * C * D)) :
  slices4 a b c d = Ok l ->
  length a = length l /\ length b = length l /\ length c = length l /\
  length d = length l.
Proof.
  revert b c d l. induction a as [|x a IH]; intros [|y b] [|z c] [|w d] l;
    simpl; try discriminate.
  - now intros [= <-].
  - destruct (slices4 a b c d) as [l'| |] eqn:E; simpl; try discriminate.
    intros [= <-]. destruct (IH _ _ _ _ E) as (H1 & H2 & H3 & H4).
    simpl. lia.
Qed.

Lemma scan_reverse_length {S X Y : Type} (f : S -> X -> S * Y) (c : S)
    (xs : list X) : length (snd (scan_reverse f c xs)) = length xs.
Proof.
  induction xs as [|x xs IH]; simpl; [reflexivity|].
  destruct (scan_reverse f c xs) as [c' ys]. simpl in IH.
  destruct (f c' x) as [c0 y]. simpl. now rewrite IH.
Qed.

Lemma forallb_flat_map {A B : Type} (p : B -> bool) (g : A -> list B)
    (l : list A) :
  forallb p (flat_map g l) = forallb (fun a => forallb p (g a)) l.
Proof.
  induction l as [|a l IH]; simpl; [reflexivity|].
  now rewrite forallb_app, IH.
Qed.

Section StageFacts.
Variable J : ArrayOps.
Variable AD : Autodiff J.

Abbreviation arr := (ndarray J).

(** ** The derivative bundle *)

(** X1: [compute_derivatives] raises exactly when the states without the last
    one and the controls differ in number; otherwise it returns a bundle. *)
Theorem compute_derivatives_raises_iff (ocp : OCP J) (states controls : list arr)
    (bp : float) :
  (compute_derivatives J AD ocp states controls bp = Raised <->
   (length states - 1)%nat <> length controls) /\
  ((length states - 1)%nat = length controls <->
   exists d, compute_derivatives J AD ocp states controls bp = Ok d).
Proof.
  unfold compute_derivatives.
  pose proof (vmap2_raised_iff (compute_derivatives_body J AD ocp bp)
                (removelast states) controls) as R.
  rewrite removelast_length in R. split; [exact R|].
  split.
  - intros H. apply vmap2_total. now rewrite removelast_length.
  - intros [d H]. apply vmap2_length in H.
    rewrite removelast_length in H. apply H.
Qed.

(** X2: the bundle has one entry per control, and the entry of stage [k] holds
    the partials at [(states[k], controls[k])] and the given barrier
    parameter. *)
Theorem compute_derivatives_stagewise (ocp : OCP J) (states controls : list arr)
    (bp : float) (d : Derivatives J) :
  compute_derivatives J AD ocp states controls bp = Ok d ->
  length d = length controls /\
  forall k x u,
    nth_error states k = Some x -> nth_error controls k = Some u ->
    nth_error d k = Some (compute_derivatives_body J AD ocp bp x u).
Proof.
  unfold compute_derivatives. intros H.
  pose proof (vmap2_length _ _ _ _ H) as [L1 L2].
  split; [lia|].
  intros k x u Hx Hu. apply (vmap2_nth _ _ _ _ H); [|exact Hu].
  rewrite removelast_nth_error; [exact Hx|].
  assert (k < length controls)%nat by (apply nth_error_Some; congruence).
  rewrite removelast_length in L1. lia.
Qed.

(** X3: the partials of the dynamics in the bundle do not depend on the barrier
    parameter. *)
Theorem compute_derivatives_dynamics_barrier_free (ocp : OCP J)
    (states controls : list arr) (bp bp' : float) (d d' : Derivatives J) :
  compute_derivatives J AD ocp states controls bp = Ok d ->
  compute_derivatives J AD ocp states controls bp' = Ok d' ->
  map fx d = map fx d' /\ map fu d = map fu d' /\ map fxx d = map fxx d' /\
  map fuu d = map fuu d' /\ map fxu d = map fxu d'.
Proof.
  unfold compute_derivatives. intros H H'.
  repeat split;
    (eapply vmap2_map_ext; [|exact H|exact H']; intros x u;
     unfold compute_derivatives_body;
     destruct (grad_01 J AD (stage_cost ocp) x u bp),
              (grad_01 J AD (stage_cost ocp) x u bp'),
              (jacrev_01 J AD (dynamics ocp) x u); reflexivity).
Qed.

(** ** The feasibility check *)

(** A check that answers [True] has seen every entry of the constraints of
    every stage at most zero. *)
Lemma check_feasibility_stage (ocp : OCP J) (x u : list arr) :
  check_feasibility J ocp x u = Ok true ->
  (length x - 1)%nat = length u /\
  forall k xk uk c,
    nth_error x k = Some xk -> nth_error u k = Some uk ->
    In c (elems J (constraints ocp xk uk)) -> (c <=? 0) = true.
Proof.
  unfold check_feasibility.
  destruct (vmap2 (constraints ocp) (removelast x) u) as [cons| |] eqn:E;
    simpl; try discriminate.
  intros [= H]. pose proof (vmap2_length _ _ _ _ E) as [L1 L2].
  rewrite removelast_length in L1. split; [exact L1|].
  intros k xk uk c Hx Hu Hc.
  unfold flat in H. rewrite forallb_flat_map in H.
  rewrite forallb_forall in H.
  assert (Hk : (k < length u)%nat) by (apply nth_error_Some; congruence).
  assert (N : nth_error cons k = Some (constraints ocp xk uk)).
  { apply (vmap2_nth _ _ _ _ E); [|exact Hu].
    rewrite removelast_nth_error; [exact Hx | lia]. }
  apply nth_error_In in N. apply H in N.
  rewrite forallb_forall in N. now apply N.
Qed.

(** X6: the check answers [True] exactly when the shapes agree and every entry
    of the constraints of every stage [k < N] is at most zero. *)
Theorem check_feasibility_true_iff (ocp : OCP J) (x u : list arr) :
  check_feasibility J ocp x u = Ok true <->
  (length x - 1)%nat = length u /\
  forall k xk uk c,
    nth_error x k = Some xk -> nth_error u k = Some uk ->
    In c (elems J (constraints ocp xk uk)) -> (c <=? 0) = true.
Proof.
  split; [apply check_feasibility_stage|].
  unfold check_feasibility. intros [L H].
  destruct (vmap2_total (constraints ocp) (removelast x) u) as [cons E].
  { now rewrite removelast_length. }
  rewrite E. simpl. f_equal.
  unfold flat. rewrite forallb_flat_map. apply forallb_forall.
  intros a Ha. apply forallb_forall. intros c Hc.
  apply In_nth_error in Ha. destruct Ha as [k Hk].
  pose proof (vmap2_length _ _ _ _ E) as [L1 L2].
  assert (Hlt : (k < length cons)%nat) by (apply nth_error_Some; congruence).
  destruct (nth_error (removelast x) k) as [xk|] eqn:Ex;
    [|apply nth_error_None in Ex; lia].
  destruct (nth_error u k) as [uk|] eqn:Eu;
    [|apply nth_error_None in Eu; lia].
  pose proof (vmap2_nth _ _ _ _ E k xk uk Ex Eu) as N.
  rewrite Hk in N. injection N as ->.
  apply (H k xk uk c); auto.
  rewrite <- Ex. symmetry. apply removelast_nth_error.
  rewrite removelast_length in L1, L2. lia.
Qed.

(** X7: a NaN among the constraint values of a stage makes the check answer
    [False]. *)
Theorem check_feasibility_rejects_nan (ocp : OCP J) (x u : list arr)
    (b : bool) (k : nat) (xk uk : arr) (c : float) :
  check_feasibility J ocp x u = Ok b ->
  nth_error x k = Some xk -> nth_error u k = Some uk ->
  In c (elems J (constraints ocp xk uk)) -> Prim2SF c = S754_nan ->
  b = false.
Proof.
  intros H Hx Hu Hc Hn. destruct b; [|reflexivity]. exfalso.
  apply check_feasibility_stage in H. destruct H as [_ H].
  specialize (H k xk uk c Hx Hu Hc).
  apply leb_nan_free in H. destruct H as [H _]. contradiction.
Qed.

(** X8: the check raises exactly when the states without the last one and the
    controls differ in number. *)
Theorem check_feasibility_raises_iff (ocp : OCP J) (x u : list arr) :
  check_feasibility J ocp x u = Raised <-> (length x - 1)%nat <> length u.
Proof.
  unfold check_feasibility.
  pose proof (vmap2_raised_iff (constraints ocp) (removelast x) u) as R.
  rewrite removelast_length in R.
  destruct (vmap2 (constraints ocp) (removelast x) u) eqn:E; simpl;
    split; intros H; try discriminate; try reflexivity;
    try (apply R in H; discriminate); try (now apply R);
    try (now apply vmap2_fuel in E).
Qed.

End StageFacts.

(** ** The order of binary64 *)

Lemma SFcompare_Eq_l (x y z : spec_float) :
  SFcompare x y = Some Eq -> SFcompare x z = SFcompare y z.
Proof.
  destruct x as [[]|[]| |[] mx ex], y as [[]|[]| |[] my ey]; simpl;
    try discriminate; try reflexivity; repeat match goal with
    | |- context [PosDef.Pos.compare_cont Eq ?a ?b] =>
        change (PosDef.Pos.compare_cont Eq a b) with (a ?= b)%positive
    end;
    destruct (Z.compare_spec ex ey) as [E|E|E]; try discriminate;
    destruct (Pos.compare_spec mx my) as [F|F|F]; try discriminate;
    intros _; subst; reflexivity.
Qed.

Lemma SFcompare_Lt_trans (x y z : spec_float) :
  SFcompare x y = Some Lt -> SFcompare y z = Some Lt ->
  SFcompare x z = Some Lt.
Proof.
  destruct x as [[]|[]| |[] mx ex], y as [[]|[]| |[] my ey],
    z as [[]|[]| |[] mz ez]; simpl;
    try discriminate; try reflexivity; repeat match goal with
    | |- context [PosDef.Pos.compare_cont Eq ?a ?b] =>
        change (PosDef.Pos.compare_cont Eq a b) with (a ?= b)%positive
    end;
    destruct (Z.compare_spec ex ey) as [E1|E1|E1]; try discriminate;
    destruct (Z.compare_spec ey ez) as [E2|E2|E2]; try discriminate;
    destruct (Z.compare_spec ex ez) as [E3|E3|E3]; try lia;
    try reflexivity;
    destruct (Pos.compare_spec mx my) as [F1|F1|F1]; try discriminate;
    destruct (Pos.compare_spec my mz) as [F2|F2|F2]; try discriminate;
    destruct (Pos.compare_spec mx mz) as [F3|F3|F3]; try lia;
    reflexivity.
Qed.

Lemma ltb_trans (x y z : float) :
  (x <? y) = true -> (y <? z) = true -> (x <? z) = true.
Proof.
  rewrite !FloatAxioms.ltb_spec. unfold SFltb.
  destruct (SFcompare (Prim2SF x) (Prim2SF y)) as [[]|] eqn:E1;
    try discriminate.
  destruct (SFcompare (Prim2SF y) (Prim2SF z)) as [[]|] eqn:E2;
    try discriminate.
  now rewrite (SFcompare_Lt_trans _ _ _ E1 E2).
Qed.

Lemma leb_ltb_trans (x y z : float) :
  (x <=? y) = true -> (y <? z) = true -> (x <? z) = true.
Proof.
  rewrite FloatAxioms.leb_spec, !FloatAxioms.ltb_spec. unfold SFleb, SFltb.
  destruct (SFcompare (Prim2SF x) (Prim2SF y)) as [[]|] eqn:E1;
    try discriminate;
    destruct (SFcompare (Prim2SF y) (Prim2SF z)) as [[]|] eqn:E2;
    try discriminate; intros _ _.
  - now rewrite (SFcompare_Eq_l _ _ _ E1), E2.
  - now rewrite (SFcompare_Lt_trans _ _ _ E1 E2).
Qed.

(** A bound on a maximum bounds both arguments. *)
Lemma maximum_ltb (a b t : float) :
  (maximum a b <? t) = true -> (a <? t) = true /\ (b <? t) = true.
Proof.
  intros H. pose proof (ltb_nan_free _ _ H) as [Hm _].
  unfold maximum in *.
  destruct (is_nan a) eqn:Na.
  { apply is_nan_true in Na. contradiction. }
  destruct (is_nan b) eqn:Nb.
  { apply is_nan_true in Nb. contradiction. }
  apply is_nan_false in Na, Nb.
  destruct (a <? b) eqn:L.
  - split; [|exact H]. now apply ltb_trans with b.
  - split; [exact H|]. apply leb_ltb_trans with a; [|exact H].
    now apply not_ltb_leb.
Qed.

Lemma fold_maximum_ltb (l : list float) (x t : float) :
  (fold_left maximum l x <? t) = true ->
  (x <? t) = true /\ forall c, In c l -> (c <? t) = true.
Proof.
  revert x. induction l as [|a l IH]; simpl; intros x H.
  - split; [exact H | contradiction].
  - apply IH in H. destruct H as [H1 H2].
    apply maximum_ltb in H1. destruct H1 as [Hx Ha].
    split; [exact Hx|]. intros c [<-|Hc]; auto.
Qed.

(** A bound on [jnp.max] bounds every entry. *)
Lemma jmax_ltb (l : list float) (h t : float) :
  jmax l = Ok h -> (h <? t) = true -> forall c, In c l -> (c <? t) = true.
Proof.
  destruct l as [|x l]; simpl; [discriminate|].
  intros [= <-] H. apply fold_maximum_ltb in H. destruct H as [H1 H2].
  intros c [<-|Hc]; auto.
Qed.

(** A regularisation scalar of the interval times [+0] is [+0]. *)
Lemma in_range_mul_zero (r : float) : in_range r -> r * 0 = 0.
Proof.
  intros [H1 H2]. apply Prim2SF_inj.
  rewrite FloatAxioms.mul_spec.
  rewrite FloatAxioms.leb_spec in H1, H2. unfold SFleb in *.
  change (Prim2SF 0) with (S754_zero false).
  destruct (Prim2SF r) as [s|s| |s m e];
    try (vm_compute in H1; discriminate).
  - destruct s; vm_compute in H1, H2; discriminate.
  - destruct s; [vm_compute in H1; discriminate | reflexivity].
Qed.

(** ** Loops that do not raise *)

Section LoopTotal.
Context {S : Type}.
Variables (cond : S -> bool) (body : S -> result S) (P : S -> Prop).

Lemma while_loop_no_raise :
  (forall s, P s -> cond s = true -> exists s', body s = Ok s' /\ P s') ->
  forall fuel s, P s -> while_loop fuel cond body s <> Raised.
Proof.
  intros Hstep. induction fuel as [|fuel IH]; intros s Hs; simpl;
    destruct (cond s) eqn:C; try discriminate.
  destruct (Hstep s Hs C) as (s' & -> & Hs'). simpl. now apply IH.
Qed.

End LoopTotal.

Lemma scan_length {S X Y : Type} (f : S -> X -> S * Y) (c : S)
    (xs : list X) : length (snd (scan f c xs)) = length xs.
Proof.
  revert c. induction xs as [|x xs IH]; intros c; simpl; [reflexivity|].
  destruct (f c x) as [c' y]. specialize (IH c').
  destruct (scan f c' xs) as [cN ys]. simpl in *. now rewrite IH.
Qed.

Section TrajectoryFacts.
Variable J : ArrayOps.
Variable AD : Autodiff J.

Abbreviation arr := (ndarray J).

Lemma bwd_pass_lengths (f : arr -> float) (xN : arr) (d : Derivatives J)
    (r : float) :
  length (ffgain (bwd_pass J AD f xN d r)) = length d /\
  length (gain (bwd_pass J AD f xN d r)) = length d /\
  length (Hu (bwd_pass J AD f xN d r)) = length d.
Proof.
  unfold bwd_pass, bwd_scan.
  match goal with |- context [scan_reverse ?f ?c ?l] =>
    pose proof (scan_reverse_length f c l) as L;
    destruct (scan_reverse f c l) as [c' outs] end.
  simpl in *. now rewrite !length_map.
Qed.

(** The seed trajectory has one state more than controls and starts at the
    initial state. *)
Lemma rollout_seed (dyn : arr -> arr -> arr) (us : list arr) (x0 : arr) :
  length (rollout J dyn us x0) = S (length us) /\
  hd_error (rollout J dyn us x0) = Some x0.
Proof.
  unfold rollout.
  pose proof (scan_length (fun x u => (dyn x u, x)) x0 us) as L.
  destruct us as [|u us].
  - simpl. auto.
  - simpl in *.
    destruct (scan (fun x u => (dyn x u, x)) (dyn x0 u) us) as [xf xs].
    simpl in *. rewrite length_app. simpl. split; [lia | reflexivity].
Qed.

(** What a rollout that returns has returned. *)
Lemma nonlin_rollout_inv (ocp : OCP J) (g f xs us xs' us' : list arr) :
  nonlin_rollout J ocp g f xs us = Ok (xs', us') ->
  length g = length us /\ length f = length us /\
  length xs = S (length us) /\
  length us' = length us /\ length xs' = S (length us) /\
  hd_error xs' = hd_error xs /\
  forall k x u, nth_error xs' k = Some x -> nth_error us' k = Some u ->
    nth_error xs' (S k) = Some (dynamics ocp x u).
Proof.
  unfold nonlin_rollout.
  destruct (hd_error xs) as [x0|] eqn:Hhd; cbn [of_option bind];
    [|discriminate].
  destruct (slices4 g f (removelast xs) us) as [inps| |] eqn:E;
    try discriminate.
  cbn [bind].
  pose proof (rollout_scan J ocp inps x0) as R. cbv zeta in R.
  destruct (scan (rollout_body J ocp) x0 inps) as [xf outs].
  cbn [fst snd] in R. intros [= <- <-].
  destruct R as (L1 & L2 & H0 & Hk).
  apply slices4_length in E. destruct E as (E1 & E2 & E3 & E4).
  rewrite removelast_length in E3.
  assert (Lx : length xs = S (length us))
    by (destruct xs; [discriminate | simpl in *; lia]).
  repeat split; try lia.
  - destruct (map fst outs ++ [xf]); [discriminate|]. exact H0.
  - intros k x u Hx Hu.
    assert (Hlt : (k < length inps)%nat).
    { rewrite <- L1. apply nth_error_Some. congruence. }
    destruct (nth_error inps k) as [[[[K kff] xn] un]|] eqn:N;
      [|apply nth_error_None in N; lia].
    destruct (Hk _ _ _ _ _ N) as (x_hat & A & B & C).
    rewrite A in Hx. injection Hx as ->.
    rewrite B in Hu. injection Hu as <-. exact C.
Qed.

(** A rollout over arrays of matching sizes returns. *)
Lemma nonlin_rollout_total (ocp : OCP J) (g f xs us : list arr) :
  length g = length us -> length f = length us ->
  length xs = S (length us) ->
  exists r, nonlin_rollout J ocp g f xs us = Ok r.
Proof.
  intros Hg Hf Hx. unfold nonlin_rollout.
  destruct (hd_error xs) as [x0|] eqn:Hhd; cbn [of_option bind];
    [|destruct xs; discriminate].
  destruct (slices4_total g f (removelast xs) us) as (inps & -> & _);
    try (rewrite ?removelast_length; lia).
  cbn [bind].
  destruct (scan (rollout_body J ocp) x0 inps) as [xf outs]. eauto.
Qed.

(** What an inner iteration that returns has computed, as far as the
    trajectory and the residual go. *)
Lemma while_inner_loop_candidate (ocp : OCP J) (bp : float) (x u : list arr)
    (cost : float) (d : Derivatives J) (reg_inc0 : float)
    (iv out : inner_val J) :
  while_inner_loop J AD ocp bp x u cost d reg_inc0 iv = Ok out ->
  exists b,
    inner_bwd J AD ocp x d (rp iv) = Ok b /\
    nonlin_rollout J ocp (gain b) (ffgain b) x u
      = Ok (temp_x out, temp_u out) /\
    jmax (map abs (flat J (Hu b))) = Ok (Hu_norm out).
Proof.
  unfold while_inner_loop.
  destruct (inner_bwd J AD ocp x d (rp iv)) as [b| |]; try discriminate.
  cbn [bind].
  destruct (nonlin_rollout J ocp (gain b) (ffgain b) x u)
    as [[cand_x cand_u]| |] eqn:N; try discriminate.
  cbn [bind].
  destruct (jmax (map abs (flat J (Hu b)))) as [h| |] eqn:M;
    try discriminate.
  cbn [bind].
  destruct (new_cost_of J ocp bp cand_x cand_u) as [nc| |];
    try discriminate.
  cbn [bind]. intros [= <-]. exists b.
  cbn [temp_x temp_u Hu_norm]. now repeat split.
Qed.

(** The trajectory an outer iteration hands on is the rollout of the gains
    of a backward pass about the trajectory it started from. *)
Lemma while_body_candidate (fuel : nat) (ocp : OCP J) (bp : float)
    (v v' : val J) :
  while_body J AD fuel ocp bp v = Ok v' ->
  exists d iv b,
    compute_derivatives J AD ocp (x_nom v) (u_nom v) bp = Ok d /\
    reachable (while_inner_cond J)
      (while_inner_loop J AD ocp bp (x_nom v) (u_nom v)
         (total_cost ocp (x_nom v) (u_nom v) bp) d (reg_inc v))
      (inner_init J (x_nom v) (u_nom v) (reg_param v) (reg_inc v)) iv /\
    inner_bwd J AD ocp (x_nom v) d (rp iv) = Ok b /\
    nonlin_rollout J ocp (gain b) (ffgain b) (x_nom v) (u_nom v)
      = Ok (x_nom v', u_nom v') /\
    jmax (map abs (flat J (Hu b))) = Ok (Hamiltonian_norm v') /\
    iterations v' = (iterations v + 1)%Z.
Proof.
  intros H. apply while_body_inv in H.
  destruct H as (d & inner & Hd & Hl & -> & -> & Hi & _ & _ & ->).
  apply while_loop_last_step in Hl; [|reflexivity].
  destruct Hl as (iv & Hiv & _ & Hstep & _).
  apply while_inner_loop_candidate in Hstep.
  destruct Hstep as (b & Hb & Hn & Hm).
  exists d, iv, b. now repeat split.
Qed.

(** The shape and the first state of the nominal trajectory are kept by
    the outer loop. *)
Lemma outer_reachable_shape (fuel : nat) (ocp : OCP J) (bp : float)
    (controls : list arr) (initial_state : arr) (v : val J) :
  reachable (while_cond J) (while_body J AD fuel ocp bp)
    (ddp_init J (rollout J (dynamics ocp) controls initial_state) controls)
    v ->
  length (u_nom v) = length controls /\
  length (x_nom v) = S (length controls) /\
  hd_error (x_nom v) = Some initial_state.
Proof.
  intros Hv. induction Hv as [|s s' _ (L1 & L2 & H0) _ Hb].
  - cbn [ddp_init u_nom x_nom].
    destruct (rollout_seed (dynamics ocp) controls initial_state). auto.
  - apply while_body_candidate in Hb.
    destruct Hb as (d & iv & b & _ & _ & _ & Hn & _).
    apply nonlin_rollout_inv in Hn.
    destruct Hn as (_ & _ & _ & N1 & N2 & N3 & _).
    repeat split; congruence.
Qed.

(** The last outer iteration of a run of [ddp] that returns. *)
Lemma ddp_last_iteration (fuel : nat) (ocp : OCP J) (controls : list arr)
    (initial_state : arr) (bp : float) (xs us : list arr) (n : Z) :
  ddp J AD fuel ocp controls initial_state bp = Ok (xs, us, n) ->
  exists v v',
    reachable (while_cond J) (while_body J AD fuel ocp bp)
      (ddp_init J (rollout J (dynamics ocp) controls initial_state) controls)
      v /\
    while_cond J v = true /\
    while_body J AD fuel ocp bp v = Ok v' /\ while_cond J v' = false /\
    xs = x_nom v' /\ us = u_nom v' /\ n = iterations v'.
Proof.
  unfold ddp.
  destruct (while_loop fuel _ _ _) as [vf| |] eqn:E; try discriminate.
  cbn [bind]. intros [= <- <- <-].
  apply while_loop_last_step in E; [|reflexivity].
  destruct E as (v & Hv & Hc & Hb & Hc').
  exists v, vf. now repeat split.
Qed.

Lemma outer_reachable_count (fuel : nat) (ocp : OCP J) (bp : float)
    (states controls : list arr) (v : val J) :
  reachable (while_cond J) (while_body J AD fuel ocp bp)
    (ddp_init J states controls) v ->
  (0 <= iterations v <= 501)%Z.
Proof.
  intros Hv. induction Hv as [|s s' _ IH Hc Hb].
  - cbn. lia.
  - apply while_cond_cap in Hc. apply while_body_inv in Hb.
    destruct Hb as (d & inner & _ & _ & _ & _ & Hi & _). lia.
Qed.

(** ** What [ddp] returns *)

(** X12: the trajectory [ddp] returns has as many controls as the initial
    control sequence and one state more. *)
Theorem ddp_output_shape (fuel : nat) (ocp : OCP J) (controls : list arr)
    (initial_state : arr) (bp : float) (xs us : list arr) (n : Z) :
  ddp J AD fuel ocp controls initial_state bp = Ok (xs, us, n) ->
  length us = length controls /\ length xs = S (length controls).
Proof.
  intros H. apply ddp_last_iteration in H.
  destruct H as (v & v' & Hv & _ & Hb & _ & -> & -> & _).
  apply outer_reachable_shape in Hv. destruct Hv as (L1 & L2 & _).
  apply while_body_candidate in Hb.
  destruct Hb as (d & iv & b & _ & _ & _ & Hn & _).
  apply nonlin_rollout_inv in Hn. destruct Hn as (_ & _ & _ & N1 & N2 & _).
  split; congruence.
Qed.

(** X13: the trajectory [ddp] returns starts at the initial state. *)
Theorem ddp_output_initial_state (fuel : nat) (ocp : OCP J)
    (controls : list arr) (initial_state : arr) (bp : float)
    (xs us : list arr) (n : Z) :
  ddp J AD fuel ocp controls initial_state bp = Ok (xs, us, n) ->
  hd_error xs = Some initial_state.
Proof.
  intros H. apply ddp_last_iteration in H.
  destruct H as (v & v' & Hv & _ & Hb & _ & -> & _).
  apply outer_reachable_shape in Hv. destruct Hv as (_ & _ & H0).
  apply while_body_candidate in Hb.
  destruct Hb as (d & iv & b & _ & _ & _ & Hn & _).
  apply nonlin_rollout_inv in Hn. destruct Hn as (_ & _ & _ & _ & _ & N & _).
  congruence.
Qed.

(** X14: the trajectory [ddp] returns follows the dynamics: each state but the
    first is the dynamics applied to the state and the control of the stage
    before. *)
Theorem ddp_output_dynamics (fuel : nat) (ocp : OCP J) (controls : list arr)
    (initial_state : arr) (bp : float) (xs us : list arr) (n : Z) :
  ddp J AD fuel ocp controls initial_state bp = Ok (xs, us, n) ->
  forall k x u,
    nth_error xs k = Some x -> nth_error us k = Some u ->
    nth_error xs (S k) = Some (dynamics ocp x u).
Proof.
  intros H. apply ddp_last_iteration in H.
  destruct H as (v & v' & _ & _ & Hb & _ & -> & -> & _).
  apply while_body_candidate in Hb.
  destruct Hb as (d & iv & b & _ & _ & _ & Hn & _).
  apply nonlin_rollout_inv in Hn. apply Hn.
Qed.

(** X15: the iteration count [ddp] returns is at least 1 and at most 501. *)
Theorem ddp_iteration_count (fuel : nat) (ocp : OCP J) (controls : list arr)
    (initial_state : arr) (bp : float) (xs us : list arr) (n : Z) :
  ddp J AD fuel ocp controls initial_state bp = Ok (xs, us, n) ->
  (1 <= n <= 501)%Z.
Proof.
  intros H. apply ddp_last_iteration in H.
  destruct H as (v & v' & Hv & Hc & Hb & _ & _ & _ & ->).
  apply outer_reachable_count in Hv. apply while_cond_cap in Hc.
  apply while_body_inv in Hb.
  destruct Hb as (d & inner & _ & _ & _ & _ & Hi & _). lia.
Qed.

(** X16: when [ddp] returns with a count of at most 500, it stopped on the
    residual: every entry of [Qu], at every stage of the backward pass whose
    gains rolled out the returned trajectory, is below 1e-4 in absolute
    value.  That backward pass is about the nominal trajectory before the
    returned one. *)
Theorem ddp_convergence_certificate (fuel : nat) (ocp : OCP J)
    (controls : list arr) (initial_state : arr) (bp : float)
    (xs us : list arr) (n : Z) :
  ddp J AD fuel ocp controls initial_state bp = Ok (xs, us, n) ->
  (n <= 500)%Z ->
  exists v d iv b,
    reachable (while_cond J) (while_body J AD fuel ocp bp)
      (ddp_init J (rollout J (dynamics ocp) controls initial_state) controls)
      v /\
    compute_derivatives J AD ocp (x_nom v) (u_nom v) bp = Ok d /\
    reachable (while_inner_cond J)
      (while_inner_loop J AD ocp bp (x_nom v) (u_nom v)
         (total_cost ocp (x_nom v) (u_nom v) bp) d (reg_inc v))
      (inner_init J (x_nom v) (u_nom v) (reg_param v) (reg_inc v)) iv /\
    inner_bwd J AD ocp (x_nom v) d (rp iv) = Ok b /\
    nonlin_rollout J ocp (gain b) (ffgain b) (x_nom v) (u_nom v)
      = Ok (xs, us) /\
    forall c, In c (flat J (Hu b)) -> (abs c <? 1e-4) = true.
Proof.
  intros H Hn. apply ddp_last_iteration in H.
  destruct H as (v & v' & Hv & _ & Hb & Hc & -> & -> & ->).
  apply while_body_candidate in Hb.
  destruct Hb as (d & iv & b & Hd & Hiv & Hbw & Hr & Hm & _).
  exists v, d, iv, b. repeat (split; [assumption|]).
  unfold while_cond in Hc. apply negb_false_iff, orb_true_iff in Hc.
  destruct Hc as [Hc|Hc]; [|apply Z.ltb_lt in Hc; lia].
  intros c Hin. apply (jmax_ltb _ _ _ Hm Hc). now apply in_map.
Qed.

End TrajectoryFacts.

(** A positive gain ratio has no NaN among the costs and the predicted
    reduction it is made of. *)
Lemma gain_ratio_nan_free (new_cost cost p : float) :
  (0 <? gain_ratio_of new_cost cost p) = true ->
  nan_free new_cost /\ nan_free cost /\ nan_free p.
Proof.
  intros H. apply ltb_nan_free in H. destruct H as [_ H].
  unfold gain_ratio_of, nan_free in *.
  rewrite FloatAxioms.div_spec, FloatAxioms.sub_spec in H.
  unfold SF64div, SF64sub in H.
  destruct (Prim2SF new_cost) as [sn|sn| |sn mn en];
    destruct (Prim2SF cost) as [sc|sc| |sc mc ec];
    destruct (Prim2SF p) as [sp|sp| |sp mp ep];
    repeat split; try discriminate; exfalso; apply H; try reflexivity;
    simpl;
    try (destruct sn, sc; reflexivity);
    try (destruct (SFsub prec emax _ _); reflexivity);
    try (destruct (binary_normalize prec emax _ _ _); reflexivity).
Qed.

Lemma last_error_some {A : Type} (l : list A) :
  l <> [] -> exists a, last_error l = Some a.
Proof.
  intros H. unfold last_error.
  destruct (nth_error l (length l - 1)) as [a|] eqn:E; eauto.
  apply nth_error_None in E. destruct l; [contradiction | simpl in E; lia].
Qed.

Section RunFacts.
Variable J : ArrayOps.
Variable AD : Autodiff J.

Abbreviation arr := (ndarray J).

(** ** Runs that raise and runs that return *)

Lemma inner_bwd_inv (ocp : OCP J) (x : list arr) (d : Derivatives J)
    (r : float) (b : bwd_result J) :
  inner_bwd J AD ocp x d r = Ok b ->
  exists xN, last_error x = Some xN /\
    b = bwd_pass J AD (final_cost ocp) xN d r.
Proof.
  unfold inner_bwd. destruct (last_error x) as [xN|]; simpl;
    try discriminate.
  intros [= <-]. eauto.
Qed.

(** An inner iteration about an empty control sequence raises. *)
Lemma while_inner_loop_empty (ocp : OCP J) (bp : float) (x : list arr)
    (cost : float) (d : Derivatives J) (reg_inc0 : float) (iv : inner_val J) :
  while_inner_loop J AD ocp bp x [] cost d reg_inc0 iv = Raised.
Proof.
  destruct (while_inner_loop J AD ocp bp x [] cost d reg_inc0 iv)
    as [out| |] eqn:E; [exfalso|reflexivity|].
  - apply while_inner_loop_candidate in E.
    destruct E as (b & Hb & Hn & Hm).
    apply inner_bwd_inv in Hb. destruct Hb as (xN & _ & ->).
    apply nonlin_rollout_inv in Hn. destruct Hn as (Hg & _).
    destruct (bwd_pass_lengths J AD (final_cost ocp) xN d (rp iv))
      as (_ & L2 & L3).
    destruct (Hu (bwd_pass J AD (final_cost ocp) xN d (rp iv)));
      [discriminate | simpl in *; lia].
  - now apply while_inner_loop_fuel in E.
Qed.

(** An inner iteration about a trajectory of [N + 1] states and [N >= 1]
    controls, with a bundle of [N] stages, returns. *)
Lemma while_inner_loop_total (ocp : OCP J) (bp : float) (x u : list arr)
    (cost : float) (d : Derivatives J) (reg_inc0 : float) (iv : inner_val J) :
  (forall a : arr, elems J a <> []) ->
  u <> [] -> length x = S (length u) -> length d = length u ->
  exists out, while_inner_loop J AD ocp bp x u cost d reg_inc0 iv = Ok out.
Proof.
  intros He Hu0 Lx Ld. unfold while_inner_loop, inner_bwd.
  destruct (last_error_some x) as [xN ->]; [now destruct x|].
  cbn [of_option bind].
  set (b := bwd_pass J AD (final_cost ocp) xN d (rp iv)).
  destruct (bwd_pass_lengths J AD (final_cost ocp) xN d (rp iv))
    as (L1 & L2 & L3). fold b in L1, L2, L3.
  destruct (nonlin_rollout_total J ocp (gain b) (ffgain b) x u)
    as [[cx cu'] Hr]; try lia.
  rewrite Hr. cbn [bind].
  destruct (jmax (map abs (flat J (Hu b)))) as [h| |] eqn:M.
  - cbn [bind]. unfold new_cost_of, check_feasibility.
    apply nonlin_rollout_inv in Hr.
    destruct Hr as (_ & _ & _ & N1 & N2 & _).
    destruct (vmap2_total (constraints ocp) (removelast cx) cu') as [c ->].
    { rewrite removelast_length. lia. }
    cbn [bind]. eauto.
  - exfalso. unfold jmax in M.
    destruct (Hu b) as [|a l] eqn:Eb.
    + destruct u; [contradiction | simpl in *; lia].
    + simpl in M. unfold flat in M. simpl in M.
      specialize (He a). destruct (elems J a); [contradiction|].
      discriminate.
  - now apply jmax_fuel in M.
Qed.

Lemma inner_loop_total (k : nat) (ocp : OCP J) (bp : float) (x u : list arr)
    (cost : float) (d : Derivatives J) (reg_inc0 rp0 ri0 : float) :
  (forall a : arr, elems J a <> []) ->
  u <> [] -> length x = S (length u) -> length d = length u ->
  exists inner,
    while_loop (501 + k) (while_inner_cond J)
      (while_inner_loop J AD ocp bp x u cost d reg_inc0)
      (inner_init J x u rp0 ri0) = Ok inner.
Proof.
  intros He Hu0 Lx Ld.
  destruct (while_loop (501 + k) _ _ _) as [inner| |] eqn:E; eauto;
    exfalso.
  - revert E. apply (while_loop_no_raise _ _ (fun _ => True)); [|exact I].
    intros s _ _.
    destruct (while_inner_loop_total ocp bp x u cost d reg_inc0 s)
      as [out ->]; eauto.
  - apply while_loop_not_out_of_fuel in E.
    pose proof (inner_loop_steps J AD k ocp bp x u cost d reg_inc0
                  (inner_init J x u rp0 ri0) eq_refl) as Hs.
    rewrite E in Hs. exact Hs.
Qed.

Lemma while_body_total (k : nat) (ocp : OCP J) (bp : float) (v : val J) :
  (forall a : arr, elems J a <> []) ->
  u_nom v <> [] -> length (x_nom v) = S (length (u_nom v)) ->
  exists v', while_body J AD (501 + k) ocp bp v = Ok v'.
Proof.
  intros He Hu0 Lx. unfold while_body, compute_derivatives.
  destruct (vmap2_total (compute_derivatives_body J AD ocp bp)
              (removelast (x_nom v)) (u_nom v)) as [d Hd].
  { rewrite removelast_length. lia. }
  rewrite Hd. cbn [bind].
  apply vmap2_length in Hd. destruct Hd as [D1 D2].
  rewrite removelast_length in D2.
  destruct (inner_loop_total k ocp bp (x_nom v) (u_nom v)
              (total_cost ocp (x_nom v) (u_nom v) bp) d (reg_inc v)
              (reg_param v) (reg_inc v)) as [inner ->]; auto; try lia.
  cbn [bind]. eauto.
Qed.

Lemma ddp_total (k : nat) (ocp : OCP J) (controls : list arr)
    (initial_state : arr) (bp : float) :
  (forall a : arr, elems J a <> []) -> controls <> [] ->
  exists xs us n,
    ddp J AD (501 + k) ocp controls initial_state bp = Ok (xs, us, n).
Proof.
  intros He Hc. unfold ddp.
  destruct (while_loop (501 + k) _ _ _) as [v| |] eqn:E.
  - cbn [bind]. eauto.
  - exfalso. revert E.
    apply (while_loop_no_raise _ _
             (fun v => length (u_nom v) = length controls /\
                       length (x_nom v) = S (length controls))).
    + intros s [L1 L2] _.
      destruct (while_body_total k ocp bp s) as [s' Hs']; auto.
      { destruct (u_nom s); [|discriminate].
        destruct controls; [contradiction | discriminate]. }
      { lia. }
      exists s'. split; [exact Hs'|].
      apply while_body_candidate in Hs'.
      destruct Hs' as (d & iv & b & _ & _ & _ & Hn & _).
      apply nonlin_rollout_inv in Hn.
      destruct Hn as (_ & _ & _ & N1 & N2 & _). lia.
    + cbn [ddp_init u_nom x_nom].
      destruct (rollout_seed J (dynamics ocp) controls initial_state). auto.
  - exfalso. apply while_loop_not_out_of_fuel in E.
    pose proof (outer_loop_steps J AD k ocp bp
      (ddp_init J (rollout J (dynamics ocp) controls initial_state) controls)
      eq_refl) as Hs.
    rewrite E in Hs. exact Hs.
Qed.

(** The shape of the controls and the bounds of the count of a run of
    [ddp] that returns. *)
Lemma ddp_shape_and_count (fuel : nat) (ocp : OCP J) (controls : list arr)
    (initial_state : arr) (bp : float) (xs us : list arr) (n : Z) :
  ddp J AD fuel ocp controls initial_state bp = Ok (xs, us, n) ->
  length us = length controls /\ (1 <= n <= 501)%Z.
Proof.
  intros H. apply ddp_last_iteration in H.
  destruct H as (v & v' & Hv & Hc & Hb & _ & _ & -> & ->).
  pose proof (outer_reachable_shape J AD _ _ _ _ _ _ Hv) as (L1 & _).
  apply outer_reachable_count in Hv. apply while_cond_cap in Hc.
  pose proof Hb as Hb'. apply while_body_inv in Hb'.
  destruct Hb' as (d0 & inner & _ & _ & _ & _ & Hi & _).
  apply while_body_candidate in Hb.
  destruct Hb as (d & iv & b & _ & _ & _ & Hn & _).
  apply nonlin_rollout_inv in Hn. destruct Hn as (_ & _ & _ & N1 & _).
  split; [congruence | lia].
Qed.

(** X17: [ddp] raises on an empty control sequence, where the residual would be
    the maximum of an empty array, and so does [interior_point_ddp]. *)
Theorem ddp_empty_controls_raises (fuel : nat) (ocp : OCP J)
    (initial_state : arr) (bp : float) :
  ddp J AD (S fuel) ocp [] initial_state bp = Raised /\
  interior_point_ddp J AD (S fuel) ocp [] initial_state = Raised.
Proof.
  assert (D : forall bp', ddp J AD (S fuel) ocp [] initial_state bp' = Raised).
  { intros bp'. unfold ddp. cbn [while_loop].
    change (while_cond J (ddp_init J (rollout J (dynamics ocp) [] initial_state) []))
      with true. cbv iota.
    unfold while_body at 1. cbn [ddp_init u_nom x_nom].
    destruct (compute_derivatives J AD ocp _ [] bp') as [d| |] eqn:E;
      try reflexivity.
    - cbn [bind while_loop].
      change (while_inner_cond J (inner_init J _ _ _ _)) with true. cbv iota.
      now rewrite while_inner_loop_empty.
    - unfold compute_derivatives in E. now apply vmap2_fuel in E. }
  split; [apply D|].
  unfold interior_point_ddp. cbn [while_loop].
  change (ip_while_cond J ([], 0.1, 0%Z)) with true. cbv iota.
  unfold ip_while_body at 1. now rewrite D.
Qed.

(** X18: for arrays that have at least one entry and a control sequence that is
    not empty, [ddp] returns: it neither raises nor needs more than 501
    iterations of either loop. *)
Theorem ddp_returns (k : nat) (ocp : OCP J) (controls : list arr)
    (initial_state : arr) (bp : float) :
  (forall a : arr, elems J a <> []) -> controls <> [] ->
  exists xs us n,
    ddp J AD (501 + k) ocp controls initial_state bp = Ok (xs, us, n).
Proof. apply ddp_total. Qed.

End RunFacts.

Section ContinuationFacts.
Variable J : ArrayOps.
Variable AD : Autodiff J.

Abbreviation arr := (ndarray J).

(** ** What [interior_point_ddp] returns *)

(** The continuation as the chain of its five runs. *)
Lemma interior_point_chain (f0 k : nat) (ocp : OCP J) (controls : list arr)
    (initial_state : arr) :
  let run u bp := ddp J AD f0 ocp u initial_state bp in
  (r <- while_steps (5 + k) (ip_while_cond J)
          (ip_while_body J AD f0 ocp initial_state) (controls, 0.1, 0%Z) ;;
   '(opt_u, _, N_iterations) <- Ok (fst r) ;; Ok (opt_u, N_iterations)) =
    ('(_, u1, n1) <- run controls 0.1 ;;
     '(_, u2, n2) <- run u1 (0.1 / 5) ;;
     '(_, u3, n3) <- run u2 (0.1 / 5 / 5) ;;
     '(_, u4, n4) <- run u3 (0.1 / 5 / 5 / 5) ;;
     '(_, u5, n5) <- run u4 (0.1 / 5 / 5 / 5 / 5) ;;
     Ok (u5, (0 + n1 + n2 + n3 + n4 + n5)%Z)).
Proof.
  intros run.
  pose proof (ip_five_steps J AD f0 k ocp controls initial_state) as E.
  cbv zeta in E. fold run in E. rewrite E.
  destruct (run controls 0.1) as [[[x1 u1] n1]| |]; try reflexivity.
  cbn [bind].
  destruct (run u1 (0.1 / 5)) as [[[x2 u2] n2]| |]; try reflexivity.
  cbn [bind].
  destruct (run u2 (0.1 / 5 / 5)) as [[[x3 u3] n3]| |]; try reflexivity.
  cbn [bind].
  destruct (run u3 (0.1 / 5 / 5 / 5)) as [[[x4 u4] n4]| |]; try reflexivity.
  cbn [bind].
  destruct (run u4 (0.1 / 5 / 5 / 5 / 5)) as [[[x5 u5] n5]| |];
    reflexivity.
Qed.

Lemma interior_point_unfold (fuel : nat) (ocp : OCP J) (controls : list arr)
    (initial_state : arr) :
  interior_point_ddp J AD fuel ocp controls initial_state =
  (r <- while_steps fuel (ip_while_cond J)
          (ip_while_body J AD fuel ocp initial_state) (controls, 0.1, 0%Z) ;;
   '(opt_u, _, N_iterations) <- Ok (fst r) ;; Ok (opt_u, N_iterations)).
Proof.
  unfold interior_point_ddp. rewrite while_loop_steps.
  now destruct (while_steps fuel _ _ _) as [[s n]| |].
Qed.

(** X19: the controls [interior_point_ddp] returns are as many as the initial
    ones, and the count it returns, the sum over five runs of [ddp], is at
    least 5 and at most 2505. *)
Theorem interior_point_output (k : nat) (ocp : OCP J) (controls : list arr)
    (initial_state : arr) (us : list arr) (n : Z) :
  interior_point_ddp J AD (5 + k) ocp controls initial_state = Ok (us, n) ->
  length us = length controls /\ (5 <= n <= 2505)%Z.
Proof.
  rewrite interior_point_unfold.
  pose proof (interior_point_chain (5 + k) k ocp controls initial_state) as E.
  cbv zeta in E. rewrite E. clear E.
  destruct (ddp J AD (5 + k) ocp controls initial_state 0.1)
    as [[[x1 u1] n1]| |] eqn:R1; try discriminate. cbn [bind].
  destruct (ddp J AD (5 + k) ocp u1 initial_state (0.1 / 5))
    as [[[x2 u2] n2]| |] eqn:R2; try discriminate. cbn [bind].
  destruct (ddp J AD (5 + k) ocp u2 initial_state (0.1 / 5 / 5))
    as [[[x3 u3] n3]| |] eqn:R3; try discriminate. cbn [bind].
  destruct (ddp J AD (5 + k) ocp u3 initial_state (0.1 / 5 / 5 / 5))
    as [[[x4 u4] n4]| |] eqn:R4; try discriminate. cbn [bind].
  destruct (ddp J AD (5 + k) ocp u4 initial_state (0.1 / 5 / 5 / 5 / 5))
    as [[[x5 u5] n5]| |] eqn:R5; try discriminate. cbn [bind].
  intros [= <- <-].
  apply ddp_shape_and_count in R1, R2, R3, R4, R5.
  destruct R1, R2, R3, R4, R5. split; [congruence | lia].
Qed.

(** X20: for arrays that have at least one entry and a control sequence that is
    not empty, [interior_point_ddp] returns. *)
Theorem interior_point_returns (k : nat) (ocp : OCP J) (controls : list arr)
    (initial_state : arr) :
  (forall a : arr, elems J a <> []) -> controls <> [] ->
  exists us n,
    interior_point_ddp J AD (501 + k) ocp controls initial_state
      = Ok (us, n).
Proof.
  intros He Hc. rewrite interior_point_unfold.
  pose proof (interior_point_chain (501 + k) (496 + k) ocp controls
                initial_state) as E.
  cbv zeta in E.
  change (5 + (496 + k))%nat with (501 + k)%nat in E. rewrite E. clear E.
  assert (N : forall u u' : list arr,
             length u' = length u -> u <> [] -> u' <> []).
  { intros u u' L H ->. destruct u; [contradiction | discriminate]. }
  destruct (ddp_total J AD k ocp controls initial_state 0.1 He Hc)
    as (x1 & u1 & n1 & R1).
  rewrite R1. cbn [bind]. apply ddp_shape_and_count in R1.
  destruct R1 as [L1 _]. pose proof (N _ _ L1 Hc) as H1.
  destruct (ddp_total J AD k ocp u1 initial_state (0.1 / 5) He H1)
    as (x2 & u2 & n2 & R2).
  rewrite R2. cbn [bind]. apply ddp_shape_and_count in R2.
  destruct R2 as [L2 _]. pose proof (N _ _ L2 H1) as H2.
  destruct (ddp_total J AD k ocp u2 initial_state (0.1 / 5 / 5) He H2)
    as (x3 & u3 & n3 & R3).
  rewrite R3. cbn [bind]. apply ddp_shape_and_count in R3.
  destruct R3 as [L3 _]. pose proof (N _ _ L3 H2) as H3.
  destruct (ddp_total J AD k ocp u3 initial_state (0.1 / 5 / 5 / 5) He H3)
    as (x4 & u4 & n4 & R4).
  rewrite R4. cbn [bind]. apply ddp_shape_and_count in R4.
  destruct R4 as [L4 _]. pose proof (N _ _ L4 H3) as H4.
  destruct (ddp_total J AD k ocp u4 initial_state (0.1 / 5 / 5 / 5 / 5)
              He H4) as (x5 & u5 & n5 & R5).
  rewrite R5. cbn [bind]. eauto.
Qed.

(** ** The acceptance rule and the regularisation *)

(** X9: an accepted candidate has no NaN behind it: the nominal cost, the cost
    of the candidate and the predicted reduction are not NaN, and the
    backward pass was positive definite at every stage. *)
Theorem accepted_step_nan_free (ocp : OCP J) (bp : float) (x u : list arr)
    (cost : float) (d : Derivatives J) (reg_inc0 : float)
    (iv out : inner_val J) (b : bwd_result J) :
  while_inner_loop J AD ocp bp x u cost d reg_inc0 iv = Ok out ->
  inner_bwd J AD ocp x d (rp iv) = Ok b ->
  succesful_minimzation out = true ->
  nan_free cost /\ nan_free (pred_reduction b) /\
  feasible_bwd_pass b = true /\
  exists new_cost,
    new_cost_of J ocp bp (temp_x out) (temp_u out) = Ok new_cost /\
    nan_free new_cost.
Proof.
  intros H Hb Hacc. apply while_inner_loop_inv in H.
  destruct H as (b' & feasible & Hb' & _ & _ & H). cbv zeta in H.
  destruct H as (Hc & Hs & _).
  assert (b' = b) by congruence. subst b'.
  rewrite Hacc in Hs. symmetry in Hs. apply andb_true_iff in Hs.
  destruct Hs as [Hg Hf]. apply gain_ratio_nan_free in Hg.
  destruct Hg as (G1 & G2 & G3). eauto 7.
Qed.

(** With a regularisation scalar of the interval, a bundle whose stacked
    control gradient of the cost has norm zero gives one backward pass,
    whatever the scalar is. *)
Lemma inner_bwd_zero_gradient (ocp : OCP J) (x : list arr)
    (d : Derivatives J) (r1 r2 : float) :
  norm J (map cu d) = 0 -> in_range r1 -> in_range r2 ->
  inner_bwd J AD ocp x d r1 = inner_bwd J AD ocp x d r2.
Proof.
  intros H H1 H2. unfold inner_bwd, bwd_pass, bwd_scan. cbv zeta.
  now rewrite H, !in_range_mul_zero.
Qed.

(** X4: where the control gradient of the cost is zero along the nominal
    trajectory, [reg_param * ||cu||] is zero for every regularisation scalar
    of the interval: the backward pass does not depend on the scalar. *)
Theorem bwd_pass_zero_gradient (f : arr -> float) (xN : arr)
    (d : Derivatives J) (r1 r2 : float) :
  norm J (map cu d) = 0 -> in_range r1 -> in_range r2 ->
  bwd_pass J AD f xN d r1 = bwd_pass J AD f xN d r2.
Proof.
  intros H H1 H2. unfold bwd_pass, bwd_scan. cbv zeta.
  now rewrite H, !in_range_mul_zero.
Qed.

(** X11: from a nominal trajectory along which the stacked control gradient
    of the cost has norm zero, every iteration of the inner loop computes
    the candidate, the verdict and the residual of the first one, whatever
    the regularisation has grown to. *)
Theorem zero_gradient_stall (ocp : OCP J) (bp : float) (x u : list arr)
    (cost : float) (d : Derivatives J) (reg_inc0 rp0 ri0 : float)
    (out1 iv out : inner_val J) :
  norm J (map cu d) = 0 ->
  in_range rp0 -> nan_free ri0 -> nan_free reg_inc0 ->
  while_inner_loop J AD ocp bp x u cost d reg_inc0 (inner_init J x u rp0 ri0)
    = Ok out1 ->
  reachable (while_inner_cond J)
    (while_inner_loop J AD ocp bp x u cost d reg_inc0)
    (inner_init J x u rp0 ri0) iv ->
  while_inner_loop J AD ocp bp x u cost d reg_inc0 iv = Ok out ->
  temp_x out = temp_x out1 /\ temp_u out = temp_u out1 /\
  succesful_minimzation out = succesful_minimzation out1 /\
  Hu_norm out = Hu_norm out1.
Proof.
  intros Hn Hr Hi Hg H1 Hiv H.
  apply inner_reachable_range in Hiv; [|exact Hg|split; assumption].
  destruct Hiv as [Hr' _].
  unfold while_inner_loop in H1, H. cbv zeta in H1, H.
  cbn [inner_init rp] in H1.
  rewrite (inner_bwd_zero_gradient ocp x d (rp iv) rp0 Hn Hr' Hr) in H.
  destruct (inner_bwd J AD ocp x d rp0) as [b| |]; try discriminate.
  cbn [bind] in H1, H.
  destruct (nonlin_rollout J ocp (gain b) (ffgain b) x u)
    as [[cand_x cand_u]| |]; try discriminate.
  cbn [bind] in H1, H.
  destruct (jmax (map abs (flat J (Hu b)))) as [h| |]; try discriminate.
  cbn [bind] in H1, H.
  destruct (new_cost_of J ocp bp cand_x cand_u) as [nc| |];
    try discriminate.
  cbn [bind] in H1, H.
  injection H1 as <-. injection H as <-.
  cbn [temp_x temp_u succesful_minimzation Hu_norm]. repeat split.
Qed.

(** X10: inside one inner loop the regularisation grows by the multiplier of the
    enclosing outer iteration: after [n] rejected candidates the scalar is
    the [n]-fold clipped product with [reg_inc], while the multiplier the
    loop carries, doubled [n] times, does not enter it. *)
Theorem inner_growth_geometric (ocp : OCP J) (bp : float) (x u : list arr)
    (cost : float) (d : Derivatives J) (reg_inc0 rp0 ri0 : float)
    (iv : inner_val J) :
  reachable (while_inner_cond J)
    (while_inner_loop J AD ocp bp x u cost d reg_inc0)
    (inner_init J x u rp0 ri0) iv ->
  succesful_minimzation iv = false ->
  exists n : nat,
    inner_it_counter iv = Z.of_nat n /\
    rp iv = Nat.iter n (fun r => clip (r * reg_inc0) 1e-16 1e16) rp0 /\
    r_inc iv = Nat.iter n (fun r => 2 * r) ri0.
Proof.
  intros Hiv. induction Hiv as [|s s' _ IH Hc Hb]; intros Hs.
  - exists O. repeat split.
  - unfold while_inner_cond in Hc.
    apply negb_true_iff, orb_false_iff in Hc. destruct Hc as [Hc _].
    destruct (IH Hc) as (n & Hn & Hr & Hi).
    apply while_inner_loop_inv in Hb.
    destruct Hb as (b & feasible & _ & _ & _ & Hb). cbv zeta in Hb.
    destruct Hb as (_ & _ & Hrp & Hri & Hcn).
    rewrite Hs in Hrp, Hri. unfold next_rp in Hrp.
    exists (S n).
    repeat split;
      [lia | rewrite Hrp, Hr; reflexivity | rewrite Hri, Hi; reflexivity].
Qed.

End ContinuationFacts.

Section RolloutErrors.
Variable J : ArrayOps.

Abbreviation arr := (ndarray J).

Lemma nonlin_rollout_fuel (ocp : OCP J) (g f xs us : list arr) :
  nonlin_rollout J ocp g f xs us <> OutOfFuel.
Proof.
  unfold nonlin_rollout.
  destruct (hd_error xs) as [x0|]; cbn [of_option bind]; [|discriminate].
  pose proof (slices4_fuel g f (removelast xs) us) as F.
  destruct (slices4 g f (removelast xs) us) as [inps| |]; cbn [bind];
    try easy.
  now destruct (scan (rollout_body J ocp) x0 inps).
Qed.

(** X5: the rollout raises exactly when the gains, the feedforward terms and
    the controls are not [N] each against [N + 1] nominal states. *)
Theorem nonlin_rollout_raises_iff (ocp : OCP J) (g f xs us : list arr) :
  nonlin_rollout J ocp g f xs us = Raised <->
  ~ (length g = length us /\ length f = length us /\
     length xs = S (length us)).
Proof.
  split.
  - intros E (H1 & H2 & H3).
    destruct (nonlin_rollout_total J ocp g f xs us H1 H2 H3) as [r Hr].
    congruence.
  - intros H.
    destruct (nonlin_rollout J ocp g f xs us) as [[xs' us']| |] eqn:E;
      [exfalso|reflexivity|exfalso].
    + apply nonlin_rollout_inv in E. apply H. tauto.
    + now apply nonlin_rollout_fuel in E.
Qed.

End RolloutErrors.

(** ** The constraints of the demonstration *)

(** *** A difference against zero *)

Lemma iter_pos_index {A : Type} (P : Z -> A -> Prop) (f : A -> A) :
  (forall j a, P (j + 1)%Z a -> P j (f a)) ->
  forall p j a, P (j + Z.pos p)%Z a -> P j (SpecFloat.iter_pos f p a).
Proof.
  intros Hf. induction p as [p IH|p IH|]; intros j a H; simpl.
  - apply IH, IH, Hf.
    replace (j + Z.pos p + Z.pos p + 1)%Z with (j + Z.pos p~1)%Z by lia.
    exact H.
  - apply IH, IH.
    replace (j + Z.pos p + Z.pos p)%Z with (j + Z.pos p~0)%Z by lia.
    exact H.
  - apply Hf. exact H.
Qed.

Lemma shr_1_lower (j : Z) (mrs : shr_record) :
  (0 <= j + 1 -> 2 ^ (j + 1) <= shr_m mrs)%Z ->
  (0 <= j -> 2 ^ j <= shr_m (shr_1 mrs))%Z.
Proof.
  intros H Hj. specialize (H ltac:(lia)).
  rewrite Z.pow_add_r, Z.pow_1_r in H by lia.
  assert (0 < 2 ^ j)%Z by (apply Z.pow_pos_nonneg; lia).
  destruct mrs as [m r s]. simpl in *.
  destruct m as [|[p|p|]|[p|p|]]; simpl; lia.
Qed.

Lemma shr_record_of_loc_m (m : Z) (l : location) :
  shr_m (shr_record_of_loc m l) = m.
Proof. now destruct l as [|[]]. Qed.

(** Shifting a positive mantissa to its format exponent leaves it
    positive, at an exponent that is still not below the least one. *)
Lemma shr_fexp_pos (m : positive) (e : Z) (l : location) :
  (-1074 <= e)%Z ->
  (0 < shr_m (fst (shr_fexp prec emax (Z.pos m) e l)))%Z /\
  (-1074 <= snd (shr_fexp prec emax (Z.pos m) e l))%Z.
Proof.
  intros He. unfold shr_fexp, shr, fexp, SpecFloat.emin, Zdigits2.
  change (3 - emax - prec)%Z with (-1074)%Z. change prec with 53%Z.
  pose proof (digits2_pos_bounds m) as [B1 _].
  set (d := Z.pos (digits2_pos m)) in *.
  destruct (Z.max (d + e - 53) (-1074) - e)%Z as [|n|n] eqn:N; simpl fst;
    simpl snd; rewrite ?shr_record_of_loc_m; try (split; lia).
  split; [|lia].
  assert (L : (0 <= 52 -> 2 ^ 52 <=
            shr_m (SpecFloat.iter_pos shr_1 n
                     (shr_record_of_loc (Z.pos m) l)))%Z).
  { apply (iter_pos_index (fun j r => (0 <= j -> 2 ^ j <= shr_m r)%Z)).
    - intros j a. apply shr_1_lower.
    - intros _. rewrite shr_record_of_loc_m.
      replace (52 + Z.pos n)%Z with (d - 1)%Z by lia. exact B1. }
  specialize (L ltac:(lia)). lia.
Qed.

Lemma round_nearest_even_pos (m : Z) (l : location) :
  (0 < m)%Z -> (0 < round_nearest_even m l)%Z.
Proof.
  intros H. unfold round_nearest_even.
  destruct l as [|[]]; try destruct (Z.even m); lia.
Qed.

(** Rounding a positive mantissa at an exponent not below the least one
    gives a number that is not zero. *)
Lemma binary_round_aux_nonzero (s : bool) (m : positive) (e : Z)
    (l : location) :
  (-1074 <= e)%Z ->
  (exists m' e', binary_round_aux prec emax s (Z.pos m) e l
                 = S754_finite s m' e') \/
  binary_round_aux prec emax s (Z.pos m) e l = S754_infinity s.
Proof.
  intros He. unfold binary_round_aux.
  pose proof (shr_fexp_pos m e l He) as [H1 H2].
  destruct (shr_fexp prec emax (Z.pos m) e l) as [mrs' e']. simpl in H1, H2.
  pose proof (round_nearest_even_pos _ (loc_of_shr_record mrs') H1) as H3.
  destruct (round_nearest_even (shr_m mrs') (loc_of_shr_record mrs'))
    as [|m2|m2]; try lia.
  pose proof (shr_fexp_pos m2 e' loc_Exact H2) as [H4 _].
  destruct (shr_fexp prec emax (Z.pos m2) e' loc_Exact) as [mrs'' e''].
  simpl in H4.
  destruct (shr_m mrs'') as [|m3|m3]; try lia.
  destruct (e'' <=? emax - prec)%Z; eauto.
Qed.

Lemma binary_round_nonzero (s : bool) (m : positive) (e : Z) :
  (-1074 <= e)%Z ->
  (exists m' e', binary_round prec emax s m e = S754_finite s m' e') \/
  binary_round prec emax s m e = S754_infinity s.
Proof.
  intros He. unfold binary_round, shl_align.
  set (e1 := fexp prec emax (Z.pos (digits2_pos m) + e)).
  assert (-1074 <= e1)%Z.
  { subst e1. unfold fexp, SpecFloat.emin.
    change (3 - emax - prec)%Z with (-1074)%Z. lia. }
  destruct (e1 - e)%Z; apply binary_round_aux_nonzero; lia.
Qed.

Lemma binary_normalize_leb_zero (m e : Z) :
  (-1074 <= e)%Z ->
  SFleb (binary_normalize prec emax m e false) (S754_zero false)
  = (m <=? 0)%Z.
Proof.
  intros He. destruct m as [|p|p]; simpl binary_normalize.
  - reflexivity.
  - destruct (binary_round_nonzero false p e He) as [(m' & e' & ->)| ->];
      reflexivity.
  - pose proof (binary_round_signed true p e) as Hs.
    destruct (binary_round prec emax true p e); simpl in Hs; subst;
      try reflexivity; contradiction.
Qed.

(** The order of two finite numbers is the order of their mantissas at a
    common exponent. *)
Lemma SFcompare_finite_aligned (sx sy : bool) (mx my : positive)
    (ex ey : Z) :
  bounded prec emax mx ex = true -> bounded prec emax my ey = true ->
  let ez := Z.min ex ey in
  SFcompare (S754_finite sx mx ex) (S754_finite sy my ey)
  = Some (cond_Zopp sx (Z.pos (fst (shl_align mx ex ez)))
          ?= cond_Zopp sy (Z.pos (fst (shl_align my ey ez))))%Z.
Proof.
  intros Bx By ez.
  destruct (Z.compare_spec
              (cond_Zopp sx (Z.pos (fst (shl_align mx ex ez))))
              (cond_Zopp sy (Z.pos (fst (shl_align my ey ez)))))
    as [E|E|E].
  - rewrite !shl_align_fst in E by (subst ez; lia).
    pose proof (bounded_digits _ _ Bx) as (Ex & Ux & Lx).
    pose proof (bounded_digits _ _ By) as (Ey & Uy & Ly).
    assert (P2 : forall k, (1 <= k)%Z -> (2 <= 2 ^ k)%Z).
    { intros k Hk. change 2%Z with (2 ^ 1)%Z at 1.
      apply Z.pow_le_mono_r; lia. }
    assert (Px : (0 < 2 ^ (ex - ez))%Z)
      by (apply Z.pow_pos_nonneg; subst ez; lia).
    assert (Py : (0 < 2 ^ (ey - ez))%Z)
      by (apply Z.pow_pos_nonneg; subst ez; lia).
    assert (Qx : (0 < Z.pos mx * 2 ^ (ex - ez))%Z)
      by (apply Z.mul_pos_pos; lia).
    assert (Qy : (0 < Z.pos my * 2 ^ (ey - ez))%Z)
      by (apply Z.mul_pos_pos; lia).
    assert (Hs : sx = sy)
      by (destruct sx, sy; unfold cond_Zopp in E; try reflexivity; lia).
    subst sy.
    assert (Hm : (Z.pos mx * 2 ^ (ex - ez) = Z.pos my * 2 ^ (ey - ez))%Z)
      by (destruct sx; unfold cond_Zopp in E; lia).
    assert (He : ex = ey).
    { destruct (Z.compare_spec ex ey) as [C|C|C]; [exact C| |]; exfalso.
      - subst ez. rewrite Z.min_l in Hm by lia.
        rewrite Z.sub_diag, Z.pow_0_r, Z.mul_1_r in Hm.
        specialize (Ly ltac:(lia)). specialize (P2 (ey - ex)%Z ltac:(lia)).
        nia.
      - subst ez. rewrite Z.min_r in Hm by lia.
        rewrite Z.sub_diag, Z.pow_0_r, Z.mul_1_r in Hm.
        specialize (Lx ltac:(lia)). specialize (P2 (ex - ey)%Z ltac:(lia)).
        nia. }
    subst ey. subst ez.
    rewrite Z.min_id, Z.sub_diag, Z.pow_0_r, !Z.mul_1_r in Hm.
    injection Hm as ->.
    apply SFcompare_refl. discriminate.
  - assert (L : SFltb (S754_finite sx mx ex) (S754_finite sy my ey) = true)
      by (apply SFsub_finite_neg_lt; try assumption; fold ez; lia).
    unfold SFltb in L.
    now destruct (SFcompare (S754_finite sx mx ex) (S754_finite sy my ey))
      as [[]|].
  - assert (L : SFltb (S754_finite sy my ey) (S754_finite sx mx ex) = true).
    { apply SFsub_finite_neg_lt; try assumption.
      rewrite Z.min_comm. fold ez. lia. }
    unfold SFltb in L.
    rewrite (SFcompare_antisym (S754_finite sx mx ex)) in L.
    now destruct (SFcompare (S754_finite sx mx ex) (S754_finite sy my ey))
      as [[]|].
Qed.

Lemma SFsub_leb_zero (x y : spec_float) (sy : bool) (my : positive)
    (ey : Z) :
  valid_binary x = true -> valid_binary y = true ->
  y = S754_finite sy my ey ->
  SFleb (SF64sub x y) (S754_zero false) = SFleb x y.
Proof.
  intros Vx Vy ->.
  destruct x as [sx|sx| |sx mx ex];
    try (try destruct sx; try destruct sy; reflexivity).
  unfold SF64sub, SFsub. simpl in Vx, Vy.
  rewrite binary_normalize_leb_zero.
  - unfold SFleb. rewrite (SFcompare_finite_aligned _ _ _ _ _ _ Vx Vy).
    cbv zeta.
    set (X := cond_Zopp sx _). set (Y := cond_Zopp sy _).
    destruct (Z.compare_spec X Y); destruct (Z.leb_spec (X - Y) 0);
      try reflexivity; lia.
  - apply bounded_digits in Vx, Vy. lia.
Qed.

(** Against a finite number, a difference is at most zero exactly when the
    minuend is at most the subtrahend. *)
Lemma sub_leb_zero (x y : float) :
  finite_nonzero y -> (x - y <=? 0) = (x <=? y).
Proof.
  intros (s & m & e & Hy).
  rewrite !FloatAxioms.leb_spec, FloatAxioms.sub_spec.
  change (Prim2SF 0) with (S754_zero false).
  apply SFsub_leb_zero with s m e; try apply Prim2SF_valid. exact Hy.
Qed.

Lemma SFcompare_opp (x y : spec_float) :
  SFcompare (SFopp x) y = SFcompare (SFopp y) x.
Proof.
  destruct x as [[]|[]| |[] mx ex], y as [[]|[]| |[] my ey]; simpl;
    try reflexivity;
    repeat match goal with
    | |- context [PosDef.Pos.compare_cont Eq ?a ?b] =>
        change (PosDef.Pos.compare_cont Eq a b) with (a ?= b)%positive
    end;
    rewrite (Z.compare_antisym ex ey), (Pos.compare_antisym mx my);
    destruct (ex ?= ey)%Z; simpl; try reflexivity;
    now destruct (mx ?= my)%positive.
Qed.

Lemma opp_leb (x y : float) : (- x <=? y) = (- y <=? x).
Proof.
  rewrite !FloatAxioms.leb_spec, !FloatAxioms.opp_spec. unfold SFleb.
  now rewrite SFcompare_opp.
Qed.

(** X21: the constraints of the demonstration hold exactly on the box
    [-2.5 <= control <= 2.5], [state[1] >= -1.5]. *)
Theorem demo_constraints_box (state : float * float) (control : float) :
  forallb (fun c => c <=? 0) (demo_constraints state control)
  = (control <=? 2.5) && (-2.5 <=? control) && (-1.5 <=? snd state).
Proof.
  unfold demo_constraints. cbn [forallb].
  assert (F1 : finite_nonzero 2.5) by (do 3 eexists; reflexivity).
  assert (F2 : finite_nonzero 1.5) by (do 3 eexists; reflexivity).
  rewrite !sub_leb_zero by assumption.
  rewrite (opp_leb control 2.5), (opp_leb (snd state) 1.5).
  now rewrite andb_true_r, andb_assoc.
Qed.

(** ** The further theorems at concrete problems *)

(** The bundle of the bounded problem along a trajectory of two stages. *)
Lemma compute_derivatives_stagewise_witness :
  compute_derivatives scalar_ops box_ad box_ocp [0; 0.5; 1] [0.5; 0.5] 0.1
    = Ok (derivatives_of box_ad box_ocp [0; 0.5; 1] [0.5; 0.5] 0.1) /\
  length (derivatives_of box_ad box_ocp [0; 0.5; 1] [0.5; 0.5] 0.1) = 2%nat /\
  nth_error (derivatives_of box_ad box_ocp [0; 0.5; 1] [0.5; 0.5] 0.1) 1
    = Some (compute_derivatives_body scalar_ops box_ad box_ocp 0.1 0.5 0.5).
Proof.
  assert (H : compute_derivatives scalar_ops box_ad box_ocp [0; 0.5; 1]
                [0.5; 0.5] 0.1
              = Ok (derivatives_of box_ad box_ocp [0; 0.5; 1] [0.5; 0.5] 0.1))
    by reflexivity.
  split; [exact H|].
  destruct (compute_derivatives_stagewise scalar_ops box_ad box_ocp _ _ _ _ H)
    as [L N].
  split; [exact L | apply N; reflexivity].
Defined.

(** The same bundle at two barrier parameters. *)
Lemma compute_derivatives_dynamics_barrier_free_witness :
  map fx (derivatives_of box_ad box_ocp [0; 0.5; 1] [0.5; 0.5] 0.1)
  = map fx (derivatives_of box_ad box_ocp [0; 0.5; 1] [0.5; 0.5] 0.02).
Proof.
  apply (compute_derivatives_dynamics_barrier_free scalar_ops box_ad box_ocp
           [0; 0.5; 1] [0.5; 0.5] 0.1 0.02 _ _ eq_refl eq_refl).
Defined.

(** A control that is NaN makes the constraint [u^2 - 1] NaN. *)
Lemma check_feasibility_rejects_nan_witness :
  exists b,
    check_feasibility scalar_ops box_ocp [0; 0] [nan] = Ok b /\ b = false.
Proof.
  eexists.
  assert (H : check_feasibility scalar_ops box_ocp [0; 0] [nan] = Ok _)
    by reflexivity.
  split; [exact H|].
  apply (check_feasibility_rejects_nan scalar_ops box_ocp [0; 0] [nan] _
           0 0 nan (nan * nan - 1) H eq_refl eq_refl);
    [left; reflexivity | reflexivity].
Defined.

(** The run of the bounded problem from the controls [0.5]. *)
Lemma ddp_output_shape_witness :
  exists xs us n,
    ddp scalar_ops box_ad 600 box_ocp [0.5] 0 0.1 = Ok (xs, us, n) /\
    length us = 1%nat /\ length xs = 2%nat.
Proof.
  do 3 eexists.
  assert (H : ddp scalar_ops box_ad 600 box_ocp [0.5] 0 0.1 = Ok (_, _, _))
    by (vm_compute; reflexivity).
  split; [exact H|].
  exact (ddp_output_shape scalar_ops box_ad 600 box_ocp [0.5] 0 0.1 _ _ _ H).
Defined.

Lemma ddp_output_initial_state_witness :
  exists xs us n,
    ddp scalar_ops box_ad 600 box_ocp [0.5] 0 0.1 = Ok (xs, us, n) /\
    hd_error xs = Some 0.
Proof.
  do 3 eexists.
  assert (H : ddp scalar_ops box_ad 600 box_ocp [0.5] 0 0.1 = Ok (_, _, _))
    by (vm_compute; reflexivity).
  split; [exact H|].
  exact (ddp_output_initial_state scalar_ops box_ad 600 box_ocp [0.5] 0 0.1
           _ _ _ H).
Defined.

Lemma ddp_output_dynamics_witness :
  exists xs us n x u,
    ddp scalar_ops box_ad 600 box_ocp [0.5] 0 0.1 = Ok (xs, us, n) /\
    nth_error xs 0 = Some x /\ nth_error us 0 = Some u /\
    nth_error xs 1 = Some (integrator x u).
Proof.
  do 5 eexists.
  assert (H : ddp scalar_ops box_ad 600 box_ocp [0.5] 0 0.1 = Ok (_, _, _))
    by (vm_compute; reflexivity).
  split; [exact H|]. split; [reflexivity|]. split; [reflexivity|].
  apply (ddp_output_dynamics scalar_ops box_ad 600 box_ocp [0.5] 0 0.1
           _ _ _ H 0%nat); reflexivity.
Defined.

Lemma ddp_iteration_count_witness :
  exists xs us n,
    ddp scalar_ops box_ad 600 box_ocp [0.5] 0 0.1 = Ok (xs, us, n) /\
    (1 <= n <= 501)%Z.
Proof.
  do 3 eexists.
  assert (H : ddp scalar_ops box_ad 600 box_ocp [0.5] 0 0.1 = Ok (_, _, _))
    by (vm_compute; reflexivity).
  split; [exact H|].
  exact (ddp_iteration_count scalar_ops box_ad 600 box_ocp [0.5] 0 0.1
           _ _ _ H).
Defined.

(** That run stops after 7 iterations, on the residual. *)
Lemma ddp_convergence_certificate_witness :
  exists xs us n,
    ddp scalar_ops box_ad 600 box_ocp [0.5] 0 0.1 = Ok (xs, us, n) /\
    (n <= 500)%Z /\
    exists v b,
      nonlin_rollout scalar_ops box_ocp (gain b) (ffgain b) (x_nom v)
        (u_nom v) = Ok (xs, us) /\
      forall c, In c (flat scalar_ops (Hu b)) -> (abs c <? 1e-4) = true.
Proof.
  do 3 eexists.
  assert (H : ddp scalar_ops box_ad 600 box_ocp [0.5] 0 0.1 = Ok (_, _, _))
    by (vm_compute; reflexivity).
  split; [exact H|].
  assert (Hn : (7 <= 500)%Z) by lia.
  split; [exact Hn|].
  destruct (ddp_convergence_certificate scalar_ops box_ad 600 box_ocp [0.5] 0
              0.1 _ _ _ H Hn) as (v & d & iv & b & _ & _ & _ & _ & Hr & Hc).
  exists v, b. split; assumption.
Defined.

(** The scalar arrays have one entry each. *)
Lemma ddp_returns_witness :
  exists xs us n,
    ddp scalar_ops box_ad (501 + 0) box_ocp [0.5] 0 0.1 = Ok (xs, us, n).
Proof.
  apply (ddp_returns scalar_ops box_ad 0 box_ocp [0.5] 0 0.1);
    [intros a | ]; discriminate.
Defined.

Lemma interior_point_returns_witness :
  exists us n,
    interior_point_ddp scalar_ops box_ad (501 + 0) box_ocp [0.5] 0
      = Ok (us, n).
Proof.
  apply (interior_point_returns scalar_ops box_ad 0 box_ocp [0.5] 0);
    [intros a | ]; discriminate.
Defined.

(** The continuation of the bounded problem from the controls [0.5]. *)
Lemma interior_point_output_witness :
  exists us n,
    interior_point_ddp scalar_ops box_ad (5 + 595) box_ocp [0.5] 0
      = Ok (us, n) /\
    length us = 1%nat /\ (5 <= n <= 2505)%Z.
Proof.
  do 2 eexists.
  assert (H : interior_point_ddp scalar_ops box_ad (5 + 595) box_ocp [0.5] 0
              = Ok (_, _)) by (vm_compute; reflexivity).
  split; [exact H|].
  exact (interior_point_output scalar_ops box_ad 595 box_ocp [0.5] 0 _ _ H).
Defined.

(** The accepted first step of the linear problem. *)
Lemma accepted_step_nan_free_witness :
  exists out b,
    (while_inner_loop scalar_ops lin_ad lin_ocp 0.1 [0; 0] [0]
       (total_cost lin_ocp [0; 0] [0] 0.1)
       (derivatives_of lin_ad lin_ocp [0; 0] [0] 0.1) 2
       (inner_init scalar_ops [0; 0] [0] 1 2) = Ok out /\
     inner_bwd scalar_ops lin_ad lin_ocp [0; 0]
       (derivatives_of lin_ad lin_ocp [0; 0] [0] 0.1) 1 = Ok b /\
     succesful_minimzation out = true) /\
    nan_free (pred_reduction b) /\ feasible_bwd_pass b = true.
Proof.
  do 2 eexists.
  assert (H1 : while_inner_loop scalar_ops lin_ad lin_ocp 0.1 [0; 0] [0]
       (total_cost lin_ocp [0; 0] [0] 0.1)
       (derivatives_of lin_ad lin_ocp [0; 0] [0] 0.1) 2
       (inner_init scalar_ops [0; 0] [0] 1 2) = Ok _)
    by (vm_compute; reflexivity).
  assert (H2 : inner_bwd scalar_ops lin_ad lin_ocp [0; 0]
       (derivatives_of lin_ad lin_ocp [0; 0] [0] 0.1) 1 = Ok _)
    by (vm_compute; reflexivity).
  split; [split; [exact H1 | split; [exact H2 | reflexivity]]|].
  destruct (accepted_step_nan_free scalar_ops lin_ad lin_ocp 0.1 _ _ _ _ _ _
              _ _ H1 H2 eq_refl) as (_ & Hp & Hf & _).
  split; assumption.
Defined.

(** The bounded problem at the controls [u = 0], where the control gradient
    of the cost is zero. *)
Lemma bwd_pass_zero_gradient_witness :
  norm scalar_ops (map cu (derivatives_of box_ad box_ocp [0; 0] [0] 0.1)) = 0
  /\
  bwd_pass scalar_ops box_ad box_final 0
    (derivatives_of box_ad box_ocp [0; 0] [0] 0.1) 1
  = bwd_pass scalar_ops box_ad box_final 0
      (derivatives_of box_ad box_ocp [0; 0] [0] 0.1) 1024.
Proof.
  assert (H : norm scalar_ops
                (map cu (derivatives_of box_ad box_ocp [0; 0] [0] 0.1)) = 0)
    by (vm_compute; reflexivity).
  split; [exact H|].
  apply (bwd_pass_zero_gradient scalar_ops box_ad box_final 0 _ 1 1024 H);
    split; reflexivity.
Defined.

Lemma zero_gradient_stall_witness :
  exists out1 out2,
    while_inner_loop scalar_ops box_ad box_ocp 0.1 [0; 0] [0]
      (total_cost box_ocp [0; 0] [0] 0.1)
      (derivatives_of box_ad box_ocp [0; 0] [0] 0.1) 2
      (inner_init scalar_ops [0; 0] [0] 1 2) = Ok out1 /\
    while_inner_loop scalar_ops box_ad box_ocp 0.1 [0; 0] [0]
      (total_cost box_ocp [0; 0] [0] 0.1)
      (derivatives_of box_ad box_ocp [0; 0] [0] 0.1) 2 out1 = Ok out2 /\
    temp_u out2 = temp_u out1 /\
    succesful_minimzation out2 = succesful_minimzation out1.
Proof.
  do 2 eexists.
  assert (H1 : while_inner_loop scalar_ops box_ad box_ocp 0.1 [0; 0] [0]
      (total_cost box_ocp [0; 0] [0] 0.1)
      (derivatives_of box_ad box_ocp [0; 0] [0] 0.1) 2
      (inner_init scalar_ops [0; 0] [0] 1 2) = Ok _)
    by (vm_compute; reflexivity).
  split; [exact H1|].
  match type of H1 with _ = Ok ?o =>
    assert (H2 : while_inner_loop scalar_ops box_ad box_ocp 0.1 [0; 0] [0]
        (total_cost box_ocp [0; 0] [0] 0.1)
        (derivatives_of box_ad box_ocp [0; 0] [0] 0.1) 2 o = Ok _)
      by (vm_compute; reflexivity)
  end.
  split; [exact H2|].
  assert (N : norm scalar_ops
                (map cu (derivatives_of box_ad box_ocp [0; 0] [0] 0.1)) = 0)
    by (vm_compute; reflexivity).
  assert (R : in_range 1) by (split; reflexivity).
  assert (F : nan_free 2) by (apply is_nan_false; reflexivity).
  destruct (zero_gradient_stall scalar_ops box_ad box_ocp 0.1 [0; 0] [0]
              _ _ 2 1 2 _ _ _ N R F F H1
              (reach_step _ _ _ _ _ (reach_init _ _ _) eq_refl H1) H2)
    as (_ & Hu & Hs & _).
  split; assumption.
Defined.

Lemma inner_growth_geometric_witness :
  exists out1 n,
    while_inner_loop scalar_ops box_ad box_ocp 0.1 [0; 0] [0]
      (total_cost box_ocp [0; 0] [0] 0.1)
      (derivatives_of box_ad box_ocp [0; 0] [0] 0.1) 2
      (inner_init scalar_ops [0; 0] [0] 1 2) = Ok out1 /\
    succesful_minimzation out1 = false /\
    inner_it_counter out1 = Z.of_nat n /\
    rp out1 = Nat.iter n (fun r => clip (r * 2) 1e-16 1e16) 1.
Proof.
  eexists.
  assert (H1 : while_inner_loop scalar_ops box_ad box_ocp 0.1 [0; 0] [0]
      (total_cost box_ocp [0; 0] [0] 0.1)
      (derivatives_of box_ad box_ocp [0; 0] [0] 0.1) 2
      (inner_init scalar_ops [0; 0] [0] 1 2) = Ok _)
    by (vm_compute; reflexivity).
  destruct (inner_growth_geometric scalar_ops box_ad box_ocp 0.1 [0; 0] [0]
              _ _ 2 1 2 _
              (reach_step _ _ _ _ _ (reach_init _ _ _) eq_refl H1) eq_refl)
    as (n & Hn & Hr & _).
  exists n. repeat split; assumption.
Defined.
